(** * drone-email: the notification dispatch pipeline of [plugin.go]

    A shallow embedding of [Plugin.Exec] and the properties of its
    recipient resolution, rendering and SMTP session.

    The code talks to the outside through library calls (the file
    system, the template engine, the CSS inliner, the HTML-to-text
    converter and the go-mail client).  Each such call is a field of the
    record [World]: a run of [Exec] is a function of the plugin value and
    of the answers of the world, and it yields the returned [error]
    together with the sequence of observable events (log lines, client
    creation, dial, sends, close) in the order the code produces them. *)

From stdpp Require Import gmap strings list.
From Stdlib Require Floats.PrimFloat.

Local Open Scope string_scope.
Local Open Scope list_scope.

(** ** Data model (plugin.go, lines 16-116) *)

(** Go's [error] values are kept opaque: an error is identified by its
    message. A nil error is [None]. *)
Abbreviation error := string.

Inductive result (A : Type) : Type :=
| Ok (a : A)
| Err (err : error).
Arguments Ok {A} a.
Arguments Err {A} err.

Record Repo : Type := mkRepo {
  Repo_FullName : string;
  Repo_Owner : string;
  Repo_Name : string;
  Repo_SCM : string;
  Repo_Link : string;
  Repo_Avatar : string;
  Repo_Branch : string;
  Repo_Private : bool;
  Repo_Trusted : bool
}.

Record Remote : Type := mkRemote { Remote_URL : string }.

Record Author : Type := mkAuthor {
  Author_Name : string;
  Author_Email : string;
  Author_Avatar : string
}.

Record Commit : Type := mkCommit {
  Commit_Sha : string;
  Commit_Ref : string;
  Commit_Branch : string;
  Commit_Link : string;
  Commit_Message : string;
  Commit_Author : Author
}.

Record Build : Type := mkBuild {
  Build_Number : Z;
  Build_Event : string;
  Build_Status : string;
  Build_Link : string;
  Build_Created : PrimFloat.float;
  Build_Started : PrimFloat.float;
  Build_Finished : PrimFloat.float
}.

Record PrevBuild : Type := mkPrevBuild {
  PrevBuild_Status : string;
  PrevBuild_Number : Z
}.

Record PrevCommit : Type := mkPrevCommit { PrevCommit_Sha : string }.

Record Prev : Type := mkPrev {
  Prev_Build : PrevBuild;
  Prev_Commit : PrevCommit
}.

Record Job : Type := mkJob {
  Job_Status : string;
  Job_ExitCode : Z;
  Job_Started : Z;
  Job_Finished : Z
}.

Record Yaml : Type := mkYaml {
  Yaml_Signed : bool;
  Yaml_Verified : bool
}.

Record Config : Type := mkConfig {
  FromAddress : string;
  FromName : string;
  Host : string;
  Port : Z;
  Username : string;
  Password : string;
  SkipVerify : bool;
  NoStartTLS : bool;
  Recipients : list string;
  RecipientsFile : string;
  RecipientsOnly : bool;
  Subject : string;
  Body : string;
  Attachment : string;
  Attachments : list string;
  ClientHostname : string
}.

Record Plugin : Type := mkPlugin {
  P_Repo : Repo;
  P_Remote : Remote;
  P_Commit : Commit;
  P_Build : Build;
  P_Prev : Prev;
  P_Job : Job;
  P_Yaml : Yaml;
  P_Tag : string;
  P_PullRequest : Z;
  P_DeployTo : string;
  P_Config : Config
}.

(** The local type [Context] of [Exec] (lines 201-212): the plugin
    without its configuration. *)
Record Context : Type := mkContext {
  Ctx_Repo : Repo;
  Ctx_Remote : Remote;
  Ctx_Commit : Commit;
  Ctx_Build : Build;
  Ctx_Prev : Prev;
  Ctx_Job : Job;
  Ctx_Yaml : Yaml;
  Ctx_Tag : string;
  Ctx_PullRequest : Z;
  Ctx_DeployTo : string
}.

(** ** The go-mail interface, as far as [Exec] uses it *)

Inductive SMTPAuthType : Type := SMTPAuthPlain.

Inductive TLSPolicy : Type := NoTLS | TLSOpportunistic | TLSMandatory.

(** [tls.Config]: only the field that the code sets. *)
Record tls_Config : Type := mk_tls_Config { InsecureSkipVerify : bool }.

(** [mail.Option]: the option constructors that appear in the code. *)
Inductive MailOption : Type :=
| WithPort (port : Z)
| WithHELO (hostname : string)
| WithSMTPAuth (auth : SMTPAuthType)
| WithUsername (username : string)
| WithPassword (password : string)
| WithTLSConfig (cfg : tls_Config)
| WithTLSPortPolicy (policy : TLSPolicy).

(** The value that [mail.NewClient host options...] yields. *)
Record Client : Type := mkClient {
  client_host : string;
  client_options : list MailOption
}.

Inductive ContentType : Type := TypeTextPlain | TypeTextHTML.

(** What the From header of a message was set from. *)
Inductive FromValue : Type :=
| FromBare (address : string)
| FromNamed (name address : string).

(** [mail.Msg]: the parts of a message that [Exec] sets. *)
Record Msg : Type := mkMsg {
  hdr_From : option FromValue;
  hdr_To : list string;
  hdr_Subject : string;
  body_parts : list (ContentType * string);
  attachments : list string
}.

Definition mail_NewMsg : Msg :=
  {| hdr_From := None; hdr_To := []; hdr_Subject := "";
     body_parts := []; attachments := [] |}.

Definition set_From (v : FromValue) (m : Msg) : Msg :=
  {| hdr_From := Some v; hdr_To := hdr_To m; hdr_Subject := hdr_Subject m;
     body_parts := body_parts m; attachments := attachments m |}.

Definition set_To (rcpt : string) (m : Msg) : Msg :=
  {| hdr_From := hdr_From m; hdr_To := [rcpt]; hdr_Subject := hdr_Subject m;
     body_parts := body_parts m; attachments := attachments m |}.

Definition msg_Subject (subj : string) (m : Msg) : Msg :=
  {| hdr_From := hdr_From m; hdr_To := hdr_To m; hdr_Subject := subj;
     body_parts := body_parts m; attachments := attachments m |}.

Definition msg_SetBodyString (ct : ContentType) (content : string) (m : Msg) : Msg :=
  {| hdr_From := hdr_From m; hdr_To := hdr_To m; hdr_Subject := hdr_Subject m;
     body_parts := [(ct, content)]; attachments := attachments m |}.

Definition msg_AddAlternativeString (ct : ContentType) (content : string) (m : Msg) : Msg :=
  {| hdr_From := hdr_From m; hdr_To := hdr_To m; hdr_Subject := hdr_Subject m;
     body_parts := body_parts m ++ [(ct, content)]; attachments := attachments m |}.

Definition msg_AttachFile (name : string) (m : Msg) : Msg :=
  {| hdr_From := hdr_From m; hdr_To := hdr_To m; hdr_Subject := hdr_Subject m;
     body_parts := body_parts m; attachments := attachments m ++ [name] |}.

(** ** Observable events *)

Inductive Level : Type := LvlInfo | LvlWarn | LvlError.

(** One constructor per log statement of [Exec], with its arguments. *)
Inductive LogMsg : Type :=
| SkippingEmptyRecipientFromConfig
| CommitAuthorEmailIsEmpty
| SkippingEmptyRecipientFromFile (file : string)
| CouldNotOpenRecipientsFile (file : string) (err : error)
| RecipientsAre (recipientsMap : gset string)
| ErrorCreatingMailClient (err : error)
| CouldNotRenderBodyTemplate (err : error)
| CouldNotInlineRenderedBody (err : error)
| CouldNotConvertHtmlToText (err : error)
| CouldNotRenderSubjectTemplate (err : error)
| ErrorWhileDialingSMTPServer (err : error)
| CouldNotSetFromHeader (err : error)
| CouldNotSetToHeader (err : error)
| CouldNotSendEmailTo (recipient : string) (err : error).

Inductive Event : Type :=
| EvLog (lvl : Level) (line : LogMsg)
| EvNewClient (host : string) (options : list MailOption) (res : option error)
| EvDial (res : option error)
| EvSend (msg : Msg) (res : option error)
| EvClose.

(** ** The outside world

    One field per library call of [Exec].  The answers are functions of
    the arguments of the call: within one run the same path, template,
    address or message gets the same answer each time it is asked
    about. *)

Record World : Type := mkWorld {
  (** [os.Open]: the content of the file, or the error. *)
  os_Open : string -> result string;
  (** [os.Stat]: only its error is looked at. *)
  os_Stat : string -> option error;
  template_RenderTrim : string -> Context -> result string;
  inliner_Inline : string -> result string;
  html2text_FromString : string -> result string;
  (** [mail.NewClient]: the error, if the host and options are refused. *)
  mail_NewClient : string -> list MailOption -> option error;
  client_DialWithContext : Client -> option error;
  (** [msg.From], [msg.FromFormat], [msg.To]: the address check. *)
  msg_From : string -> option error;
  msg_FromFormat : string -> string -> option error;
  msg_To : string -> option error;
  client_Send : Client -> Msg -> option error;
  (** [for recipient := range recipientsMap]: Go leaves the order of a
      map iteration open; the world picks one, each key exactly once. *)
  map_range : gset string -> list string;
  map_range_perm : forall m, map_range m ≡ₚ elements m
}.

(** ** Effects: a trace of events and an early [return err] *)

Definition M (A : Type) : Type := (list Event * result A)%type.

Definition ret {A} (a : A) : M A := ([], Ok a).

Definition bind {A B} (m : M A) (k : A -> M B) : M B :=
  match m with
  | (t, Ok a) => (t ++ fst (k a), snd (k a))
  | (t, Err e) => (t, Err e)
  end.

Definition emit (ev : Event) : M unit := ([ev], Ok tt).

(** [return err] out of [Exec]. *)
Definition return_err {A} (e : error) : M A := ([], Err e).

Declare Scope go_scope.
Delimit Scope go_scope with go.
Notation "x <- m ;; k" := (bind m (fun x => k))
  (at level 100, m at next level, right associativity) : go_scope.
Notation "m ;;; k" := (bind m (fun _ => k))
  (at level 100, right associativity) : go_scope.
Local Open Scope go_scope.

Definition log_Warn (line : LogMsg) : M unit := emit (EvLog LvlWarn line).
Definition log_Warnf (line : LogMsg) : M unit := emit (EvLog LvlWarn line).
Definition log_Errorf (line : LogMsg) : M unit := emit (EvLog LvlError line).
Definition log_Infof (line : LogMsg) : M unit := emit (EvLog LvlInfo line).

(** [for _, x := range l { body }] over a state [s]; an early return in
    the body leaves the loop. *)
Fixpoint for_range {A S} (l : list A) (body : A -> S -> M S) (s : S) : M S :=
  match l with
  | [] => ret s
  | x :: l' => s' <- body x s ;; for_range l' body s'
  end.

(** [defer f()]: the deferred call runs when the rest of the function
    returns, whatever it returns. *)
Definition defer {A} (deferred : list Event) (rest : M A) : M A :=
  (fst rest ++ deferred, snd rest).

(** ** [bufio.Scanner] with its default split function, [ScanLines]

    A line ends at a newline; one trailing carriage return is dropped;
    the last line needs no newline, and an empty rest after the last
    newline is no line.  The lines are taken to fit the buffer of the
    scanner, and the file to be readable to its end once it is open. *)

Definition LF : Ascii.ascii := Ascii.ascii_of_nat 10.
Definition CR : Ascii.ascii := Ascii.ascii_of_nat 13.

Fixpoint dropCR (data : string) : string :=
  match data with
  | EmptyString => EmptyString
  | String c EmptyString => if Ascii.eqb c CR then EmptyString else data
  | String c rest => String c (dropCR rest)
  end.

Fixpoint ScanLines_from (line : string) (data : string) : list string :=
  match data with
  | EmptyString =>
      match line with
      | EmptyString => []
      | _ => [dropCR line]
      end
  | String c rest =>
      if Ascii.eqb c LF then dropCR line :: ScanLines_from EmptyString rest
      else ScanLines_from (line +:+ String c EmptyString) rest
  end.

Definition ScanLines (data : string) : list string :=
  ScanLines_from EmptyString data.

(** ** [Plugin.Exec] (plugin.go, lines 119-311) *)

Section Exec.

Variable w : World.
Variable p : Plugin.

(** Lines 121-157: build the recipient map.  [recipientsMap] is a
    [map[string]struct{}], a set of keys. *)

Definition add_config_recipient (recipient : string) (recipientsMap : gset string)
  : M (gset string) :=
  if decide (recipient = "") then
    log_Warnf SkippingEmptyRecipientFromConfig ;;;
    ret recipientsMap
  else ret ({[recipient]} ∪ recipientsMap).

Definition add_commit_author (recipientsMap : gset string) : M (gset string) :=
  if negb (RecipientsOnly (P_Config p)) then
    if decide (Author_Email (Commit_Author (P_Commit p)) ≠ "") then
      ret ({[Author_Email (Commit_Author (P_Commit p))]} ∪ recipientsMap)
    else
      log_Warn CommitAuthorEmailIsEmpty ;;;
      ret recipientsMap
  else ret recipientsMap.

Definition add_file_recipient (recipient : string) (recipientsMap : gset string)
  : M (gset string) :=
  if decide (recipient = "") then
    log_Warnf (SkippingEmptyRecipientFromFile (RecipientsFile (P_Config p))) ;;;
    ret recipientsMap
  else ret ({[recipient]} ∪ recipientsMap).

Definition add_recipients_file (recipientsMap : gset string) : M (gset string) :=
  if decide (RecipientsFile (P_Config p) ≠ "") then
    match os_Open w (RecipientsFile (P_Config p)) with
    | Ok f => for_range (ScanLines f) add_file_recipient recipientsMap
    | Err err =>
        log_Errorf (CouldNotOpenRecipientsFile (RecipientsFile (P_Config p)) err) ;;;
        ret recipientsMap
    end
  else ret recipientsMap.

Definition build_recipients : M (gset string) :=
  recipientsMap <- for_range (Recipients (P_Config p)) add_config_recipient ∅ ;;
  recipientsMap <- add_commit_author recipientsMap ;;
  recipientsMap <- add_recipients_file recipientsMap ;;
  log_Infof (RecipientsAre recipientsMap) ;;;
  ret recipientsMap.

(** Lines 162-192: the options of the mail client. *)

Definition build_options : list MailOption :=
  let options := [WithPort (Port (P_Config p))] in
  let options :=
    if decide (ClientHostname (P_Config p) ≠ "")
    then options ++ [WithHELO (ClientHostname (P_Config p))]
    else options in
  let options :=
    if decide (Username (P_Config p) ≠ "" ∧ Password (P_Config p) ≠ "")
    then options ++ [WithSMTPAuth SMTPAuthPlain;
                     WithUsername (Username (P_Config p));
                     WithPassword (Password (P_Config p))]
    else options in
  let options :=
    if SkipVerify (P_Config p)
    then options ++ [WithTLSConfig {| InsecureSkipVerify := true |}]
    else options in
  let options :=
    if NoStartTLS (P_Config p)
    then options ++ [WithTLSPortPolicy NoTLS]
    else options ++ [WithTLSPortPolicy TLSOpportunistic] in
  options.

(** Lines 194-198. *)
Definition new_client (options : list MailOption) : M Client :=
  match mail_NewClient w (Host (P_Config p)) options with
  | Some err =>
      emit (EvNewClient (Host (P_Config p)) options (Some err)) ;;;
      log_Errorf (ErrorCreatingMailClient err) ;;;
      return_err err
  | None =>
      emit (EvNewClient (Host (P_Config p)) options None) ;;;
      ret (mkClient (Host (P_Config p)) options)
  end.

(** Lines 213-224. *)
Definition ctx : Context :=
  {| Ctx_Repo := P_Repo p; Ctx_Remote := P_Remote p; Ctx_Commit := P_Commit p;
     Ctx_Build := P_Build p; Ctx_Prev := P_Prev p; Ctx_Job := P_Job p;
     Ctx_Yaml := P_Yaml p; Ctx_Tag := P_Tag p;
     Ctx_PullRequest := P_PullRequest p; Ctx_DeployTo := P_DeployTo p |}.

(** Lines 227-250: the inlined HTML body, the plain body and the
    subject. *)
Definition render : M (string * string * string) :=
  renderedBody <-
    match template_RenderTrim w (Body (P_Config p)) ctx with
    | Ok s => ret s
    | Err err => log_Errorf (CouldNotRenderBodyTemplate err) ;;; return_err err
    end ;;
  html <-
    match inliner_Inline w renderedBody with
    | Ok s => ret s
    | Err err => log_Errorf (CouldNotInlineRenderedBody err) ;;; return_err err
    end ;;
  plainBody <-
    match html2text_FromString w html with
    | Ok s => ret s
    | Err err => log_Errorf (CouldNotConvertHtmlToText err) ;;; return_err err
    end ;;
  subject <-
    match template_RenderTrim w (Subject (P_Config p)) ctx with
    | Ok s => ret s
    | Err err => log_Errorf (CouldNotRenderSubjectTemplate err) ;;; return_err err
    end ;;
  ret (html, plainBody, subject).

(** Lines 253-256. *)
Definition dial (client : Client) : M unit :=
  match client_DialWithContext w client with
  | Some err =>
      emit (EvDial (Some err)) ;;;
      log_Errorf (ErrorWhileDialingSMTPServer err) ;;;
      return_err err
  | None => emit (EvDial None)
  end.

(** Lines 264-274: the From header. *)
Definition set_from_header (msg : Msg) : M Msg :=
  if decide (FromName (P_Config p) ≠ "") then
    match msg_FromFormat w (FromName (P_Config p)) (FromAddress (P_Config p)) with
    | Some err => log_Errorf (CouldNotSetFromHeader err) ;;; return_err err
    | None =>
        ret (set_From (FromNamed (FromName (P_Config p)) (FromAddress (P_Config p))) msg)
    end
  else
    match msg_From w (FromAddress (P_Config p)) with
    | Some err => log_Errorf (CouldNotSetFromHeader err) ;;; return_err err
    | None => ret (set_From (FromBare (FromAddress (P_Config p))) msg)
    end.

(** Lines 277-280: the To header. *)
Definition set_to_header (recipient : string) (msg : Msg) : M Msg :=
  match msg_To w recipient with
  | Some err => log_Errorf (CouldNotSetToHeader err) ;;; return_err err
  | None => ret (set_To recipient msg)
  end.

(** Lines 290-301: [if _, err := os.Stat(a); err == nil { msg.AttachFile(a) }]. *)
Definition attach_if_exists (msg : Msg) (attachment : string) : Msg :=
  match os_Stat w attachment with
  | None => msg_AttachFile attachment msg
  | Some _ => msg
  end.

Definition add_attachments (msg : Msg) : Msg :=
  let msg :=
    if decide (Attachment (P_Config p) ≠ "")
    then attach_if_exists msg (Attachment (P_Config p))
    else msg in
  fold_left attach_if_exists (Attachments (P_Config p)) msg.

(** Lines 304-307. *)
Definition send (client : Client) (recipient : string) (msg : Msg) : M unit :=
  match client_Send w client msg with
  | Some err =>
      emit (EvSend msg (Some err)) ;;;
      log_Errorf (CouldNotSendEmailTo recipient err) ;;;
      return_err err
  | None => emit (EvSend msg None)
  end.

(** Lines 261-307: the body of the recipient loop. *)
Definition send_to (client : Client) (html plainBody subject : string)
    (recipient : string) (_ : unit) : M unit :=
  let msg := mail_NewMsg in
  msg <- set_from_header msg ;;
  msg <- set_to_header recipient msg ;;
  let msg := msg_Subject subject msg in
  let msg := msg_SetBodyString TypeTextPlain plainBody msg in
  let msg := msg_AddAlternativeString TypeTextHTML html msg in
  let msg := add_attachments msg in
  send client recipient msg.

(** Lines 253-310: dial, [defer client.Close()], the loop. *)
Definition dispatch (client : Client) (recipientsMap : gset string)
    (html plainBody subject : string) : M unit :=
  dial client ;;;
  defer [EvClose]
    (for_range (map_range w recipientsMap)
       (send_to client html plainBody subject) tt).

Definition Exec_M : M unit :=
  recipientsMap <- build_recipients ;;
  client <- new_client build_options ;;
  rendered <- render ;;
  let '(html, plainBody, subject) := rendered in
  dispatch client recipientsMap html plainBody subject.

(** The events of a run of [Exec] and the error it returns ([None] is
    [nil]). *)
Definition Exec : list Event * option error :=
  match Exec_M with
  | (t, Ok _) => (t, None)
  | (t, Err err) => (t, Some err)
  end.

End Exec.

(** ** Reading a run *)

Global Instance SMTPAuthType_eq_dec : EqDecision SMTPAuthType.
Proof. solve_decision. Defined.
Global Instance TLSPolicy_eq_dec : EqDecision TLSPolicy.
Proof. solve_decision. Defined.
Global Instance tls_Config_eq_dec : EqDecision tls_Config.
Proof. solve_decision. Defined.
Global Instance MailOption_eq_dec : EqDecision MailOption.
Proof. solve_decision. Defined.
Global Instance ContentType_eq_dec : EqDecision ContentType.
Proof. solve_decision. Defined.
Global Instance FromValue_eq_dec : EqDecision FromValue.
Proof. solve_decision. Defined.
Global Instance Msg_eq_dec : EqDecision Msg.
Proof. solve_decision. Defined.
Global Instance Level_eq_dec : EqDecision Level.
Proof. solve_decision. Defined.
Global Instance LogMsg_eq_dec : EqDecision LogMsg.
Proof. solve_decision. Defined.
Global Instance Event_eq_dec : EqDecision Event.
Proof. solve_decision. Defined.

Definition is_log (ev : Event) : bool :=
  match ev with EvLog _ _ => true | _ => false end.
Definition is_send (ev : Event) : bool :=
  match ev with EvSend _ _ => true | _ => false end.
Definition is_dial (ev : Event) : bool :=
  match ev with EvDial _ => true | _ => false end.
Definition is_close (ev : Event) : bool :=
  match ev with EvClose => true | _ => false end.

(** How often an event occurs in a trace. *)
Definition occurrences (ev : Event) (t : list Event) : nat :=
  length (filter (λ ev', ev' = ev) t).

(** The recipients of the messages that the server accepted, and of the
    messages that were handed to [client.Send], in the order of the
    sends. *)
Fixpoint delivered (t : list Event) : list string :=
  match t with
  | [] => []
  | EvSend msg None :: t' => hdr_To msg ++ delivered t'
  | _ :: t' => delivered t'
  end.

Fixpoint attempted (t : list Event) : list string :=
  match t with
  | [] => []
  | EvSend msg _ :: t' => hdr_To msg ++ attempted t'
  | _ :: t' => attempted t'
  end.

(** The recipient map with which [Exec] leaves lines 121-157. *)
Definition resolved_recipients (w : World) (p : Plugin) : gset string :=
  match build_recipients w p with
  | (_, Ok recipientsMap) => recipientsMap
  | (_, Err _) => ∅
  end.

(** The order in which the loop of line 260 visits the recipients. *)
Definition iteration_order (w : World) (p : Plugin) : list string :=
  map_range w (resolved_recipients w p).

(** The three sources of recipients, in the words of the specification. *)
Definition nonempty_entries (l : list string) : gset string :=
  list_to_set (filter (λ r, r ≠ "") l).

Definition config_source (p : Plugin) : gset string :=
  nonempty_entries (Recipients (P_Config p)).

Definition author_source (p : Plugin) : gset string :=
  if RecipientsOnly (P_Config p) then ∅
  else if decide (Author_Email (Commit_Author (P_Commit p)) = "") then ∅
  else {[Author_Email (Commit_Author (P_Commit p))]}.

Definition file_source (w : World) (p : Plugin) : gset string :=
  if decide (RecipientsFile (P_Config p) = "") then ∅
  else match os_Open w (RecipientsFile (P_Config p)) with
       | Ok f => nonempty_entries (ScanLines f)
       | Err _ => ∅
       end.

(** The log lines of the recipients-file step. *)
Definition file_log (w : World) (p : Plugin) : list Event :=
  if decide (RecipientsFile (P_Config p) = "") then []
  else match os_Open w (RecipientsFile (P_Config p)) with
       | Ok f =>
           replicate (length (filter (λ r, r = "") (ScanLines f)))
             (EvLog LvlWarn (SkippingEmptyRecipientFromFile (RecipientsFile (P_Config p))))
       | Err err =>
           [EvLog LvlError (CouldNotOpenRecipientsFile (RecipientsFile (P_Config p)) err)]
       end.

(** The log lines of lines 121-157, before the line that lists the set. *)
Definition resolution_log (w : World) (p : Plugin) : list Event :=
  replicate (length (filter (λ r, r = "") (Recipients (P_Config p))))
    (EvLog LvlWarn SkippingEmptyRecipientFromConfig)
  ++ (if negb (RecipientsOnly (P_Config p))
      then if decide (Author_Email (Commit_Author (P_Commit p)) = "")
           then [EvLog LvlWarn CommitAuthorEmailIsEmpty] else []
      else [])
  ++ file_log w p.

(** ** The recipient loop *)

(** The value and the check of the From header (lines 264-274). *)
Definition from_value (p : Plugin) : FromValue :=
  if decide (FromName (P_Config p) ≠ "")
  then FromNamed (FromName (P_Config p)) (FromAddress (P_Config p))
  else FromBare (FromAddress (P_Config p)).

Definition from_check (w : World) (p : Plugin) : option error :=
  if decide (FromName (P_Config p) ≠ "")
  then msg_FromFormat w (FromName (P_Config p)) (FromAddress (P_Config p))
  else msg_From w (FromAddress (P_Config p)).

(** The message that an iteration hands to [client.Send]. *)
Definition message_for (w : World) (p : Plugin) (html plainBody subject : string)
    (recipient : string) : Msg :=
  add_attachments w p
    (msg_AddAlternativeString TypeTextHTML html
       (msg_SetBodyString TypeTextPlain plainBody
          (msg_Subject subject
             (set_To recipient (set_From (from_value p) mail_NewMsg))))).

(** The shapes a run of the loop can take: every recipient is sent to, or
    the first failure ends the loop. *)
Inductive loop_run (msgf : string → Msg) :
    list string → list Event → result unit → Prop :=
| loop_done : loop_run msgf [] [] (Ok tt)
| loop_sent r rs t res :
    loop_run msgf rs t res →
    loop_run msgf (r :: rs) (EvSend (msgf r) None :: t) res
| loop_from_failed r rs err :
    loop_run msgf (r :: rs) [EvLog LvlError (CouldNotSetFromHeader err)] (Err err)
| loop_to_failed r rs err :
    loop_run msgf (r :: rs) [EvLog LvlError (CouldNotSetToHeader err)] (Err err)
| loop_send_failed r rs err :
    loop_run msgf (r :: rs)
      [EvSend (msgf r) (Some err); EvLog LvlError (CouldNotSendEmailTo r err)]
      (Err err).

(** ** Rendering *)

(** Which of the four steps of lines 227-250 fails, with the error and
    the line that is logged. *)
Inductive render_failure (w : World) (p : Plugin) : error → LogMsg → Prop :=
| body_template_fails err :
    template_RenderTrim w (Body (P_Config p)) (ctx p) = Err err →
    render_failure w p err (CouldNotRenderBodyTemplate err)
| inline_fails renderedBody err :
    template_RenderTrim w (Body (P_Config p)) (ctx p) = Ok renderedBody →
    inliner_Inline w renderedBody = Err err →
    render_failure w p err (CouldNotInlineRenderedBody err)
| plain_text_fails renderedBody html err :
    template_RenderTrim w (Body (P_Config p)) (ctx p) = Ok renderedBody →
    inliner_Inline w renderedBody = Ok html →
    html2text_FromString w html = Err err →
    render_failure w p err (CouldNotConvertHtmlToText err)
| subject_template_fails renderedBody html plainBody err :
    template_RenderTrim w (Body (P_Config p)) (ctx p) = Ok renderedBody →
    inliner_Inline w renderedBody = Ok html →
    html2text_FromString w html = Ok plainBody →
    template_RenderTrim w (Subject (P_Config p)) (ctx p) = Err err →
    render_failure w p err (CouldNotRenderSubjectTemplate err).

(** ** The shapes of a run of [Exec] *)

(** What every run starts with: the log of lines 121-159. *)
Definition resolution_trace (w : World) (p : Plugin) : list Event :=
  resolution_log w p ++ [EvLog LvlInfo (RecipientsAre (resolved_recipients w p))].

Inductive Exec_run (w : World) (p : Plugin) : list Event → option error → Prop :=
| run_client_failed err :
    mail_NewClient w (Host (P_Config p)) (build_options p) = Some err →
    Exec_run w p
      (resolution_trace w p
         ++ [EvNewClient (Host (P_Config p)) (build_options p) (Some err);
             EvLog LvlError (ErrorCreatingMailClient err)])
      (Some err)
| run_render_failed err line :
    mail_NewClient w (Host (P_Config p)) (build_options p) = None →
    render_failure w p err line →
    Exec_run w p
      (resolution_trace w p
         ++ [EvNewClient (Host (P_Config p)) (build_options p) None;
             EvLog LvlError line])
      (Some err)
| run_dial_failed html plainBody subject err :
    mail_NewClient w (Host (P_Config p)) (build_options p) = None →
    render w p = ([], Ok (html, plainBody, subject)) →
    client_DialWithContext w (mkClient (Host (P_Config p)) (build_options p)) = Some err →
    Exec_run w p
      (resolution_trace w p
         ++ [EvNewClient (Host (P_Config p)) (build_options p) None;
             EvDial (Some err);
             EvLog LvlError (ErrorWhileDialingSMTPServer err)])
      (Some err)
| run_dispatched html plainBody subject t res :
    mail_NewClient w (Host (P_Config p)) (build_options p) = None →
    render w p = ([], Ok (html, plainBody, subject)) →
    client_DialWithContext w (mkClient (Host (P_Config p)) (build_options p)) = None →
    loop_run (message_for w p html plainBody subject) (iteration_order w p) t res →
    Exec_run w p
      (resolution_trace w p
         ++ [EvNewClient (Host (P_Config p)) (build_options p) None; EvDial None]
         ++ t ++ [EvClose])
      (match res with Ok _ => None | Err err => Some err end).

(** ** Concrete runs *)

Module Fixtures.

Definition nl : string := String LF EmptyString.

Definition repo : Repo :=
  mkRepo "octo/app" "octo" "app" "git" "https://git.x.com/octo/app" "" "main" false false.

Definition plugin_with (author_email : string) (cfg : Config) : Plugin :=
  {| P_Repo := repo;
     P_Remote := mkRemote "https://git.x.com/octo/app.git";
     P_Commit := mkCommit "4f2c9d1" "refs/heads/main" "main" "" "fix build"
                   (mkAuthor "Ann" author_email "");
     P_Build := mkBuild 42 "push" "failure" "" PrimFloat.zero PrimFloat.zero PrimFloat.zero;
     P_Prev := mkPrev (mkPrevBuild "success" 41) (mkPrevCommit "aa01b7e");
     P_Job := mkJob "failure" 1 0 0;
     P_Yaml := mkYaml false false;
     P_Tag := ""; P_PullRequest := 0; P_DeployTo := "";
     P_Config := cfg |}.

Definition config_with (recipients : list string) (file : string) (only : bool)
    (attachment : string) (attachments' : list string) : Config :=
  {| FromAddress := "ci@x.com"; FromName := "CI"; Host := "smtp.x.com"; Port := 587;
     Username := "ci"; Password := "secret"; SkipVerify := true; NoStartTLS := false;
     Recipients := recipients; RecipientsFile := file; RecipientsOnly := only;
     Subject := "build {{build.status}}"; Body := "<p>{{build.status}}</p>";
     Attachment := attachment; Attachments := attachments';
     ClientHostname := "" |}.

(** A world with one recipients file and one attachment on disk, whose
    renderers succeed unless the template is ["{{"], whose server
    refuses the recipients in [refused], and for which the addresses in
    [malformed] do not parse. *)
Definition elements_order (m : gset string) : elements m ≡ₚ elements m :=
  Permutation_refl (elements m).

Definition world_full (dial : option error) (refused malformed : list string) : World :=
  {| os_Open := λ name,
       if String.eqb name "rcpts.txt"
       then Ok ("a@x.com" +:+ nl +:+ "b@x.com" +:+ nl +:+ nl)
       else Err "open: no such file or directory";
     os_Stat := λ name,
       if String.eqb name "report.txt" then None
       else Some "stat: no such file or directory";
     template_RenderTrim := λ tmpl _,
       if String.eqb tmpl "{{" then Err "template: parse error" else Ok tmpl;
     inliner_Inline := λ s, Ok s;
     html2text_FromString := λ s, Ok s;
     mail_NewClient := λ host _,
       if String.eqb host "" then Some "host must not be empty" else None;
     client_DialWithContext := λ _, dial;
     msg_From := λ _, None;
     msg_FromFormat := λ _ _, None;
     msg_To := λ address,
       if bool_decide (address ∈ malformed)
       then Some "failed to parse mail address" else None;
     client_Send := λ _ msg,
       if existsb (λ r, bool_decide (r ∈ refused)) (hdr_To msg)
       then Some "550 mailbox unavailable" else None;
     map_range := elements;
     map_range_perm := elements_order |}.

Definition world_with (dial : option error) (refused : list string) : World :=
  world_full dial refused [].

(** The message that these worlds build for a recipient. *)
Definition message_to (recipient : string) (files : list string) : Msg :=
  {| hdr_From := Some (FromNamed "CI" "ci@x.com");
     hdr_To := [recipient];
     hdr_Subject := "build {{build.status}}";
     body_parts := [(TypeTextPlain, "<p>{{build.status}}</p>");
                    (TypeTextHTML, "<p>{{build.status}}</p>")];
     attachments := files |}.

(** Three recipients from the configuration only; the loop visits them
    in the order [c@x.com], [a@x.com], [b@x.com]. *)
Definition three_recipients : Plugin :=
  plugin_with "ann@x.com"
    (config_with ["a@x.com"; "b@x.com"; "c@x.com"] "" true "" []).

(** One recipient; of the three configured paths only [report.txt] is on
    disk. *)
Definition one_file_of_three : Plugin :=
  plugin_with "ann@x.com"
    (config_with ["a@x.com"] "" true "missing.txt" ["report.txt"; "gone.log"]).


(** A recipients file that cannot be opened. *)
Definition unreadable_file : Plugin :=
  plugin_with "ann@x.com" (config_with ["a@x.com"; ""] "nobody.txt" false "" []).

(** No recipient at all. *)
Definition no_recipient : Plugin :=
  plugin_with "ann@x.com" (config_with [] "" true "" []).

End Fixtures.

(** ** Attachments *)

Definition with_Config (cfg : Config) (p : Plugin) : Plugin :=
  {| P_Repo := P_Repo p; P_Remote := P_Remote p; P_Commit := P_Commit p;
     P_Build := P_Build p; P_Prev := P_Prev p; P_Job := P_Job p;
     P_Yaml := P_Yaml p; P_Tag := P_Tag p; P_PullRequest := P_PullRequest p;
     P_DeployTo := P_DeployTo p; P_Config := cfg |}.

Definition with_attachments (attachment : string) (attachments' : list string)
    (cfg : Config) : Config :=
  {| FromAddress := FromAddress cfg; FromName := FromName cfg; Host := Host cfg;
     Port := Port cfg; Username := Username cfg; Password := Password cfg;
     SkipVerify := SkipVerify cfg; NoStartTLS := NoStartTLS cfg;
     Recipients := Recipients cfg; RecipientsFile := RecipientsFile cfg;
     RecipientsOnly := RecipientsOnly cfg; Subject := Subject cfg; Body := Body cfg;
     Attachment := attachment; Attachments := attachments';
     ClientHostname := ClientHostname cfg |}.

Definition with_RecipientsFile (file : string) (cfg : Config) : Config :=
  {| FromAddress := FromAddress cfg; FromName := FromName cfg; Host := Host cfg;
     Port := Port cfg; Username := Username cfg; Password := Password cfg;
     SkipVerify := SkipVerify cfg; NoStartTLS := NoStartTLS cfg;
     Recipients := Recipients cfg; RecipientsFile := file;
     RecipientsOnly := RecipientsOnly cfg; Subject := Subject cfg; Body := Body cfg;
     Attachment := Attachment cfg; Attachments := Attachments cfg;
     ClientHostname := ClientHostname cfg |}.

(** The paths that the configuration names: the single [Attachment], if
    set, then the list [Attachments]. *)
Definition attachment_paths (p : Plugin) : list string :=
  (if decide (Attachment (P_Config p) ≠ "") then [Attachment (P_Config p)] else [])
  ++ Attachments (P_Config p).

(** Those of them for which [os.Stat] returns no error. *)
Definition existing_attachments (w : World) (p : Plugin) : list string :=
  filter (λ a, os_Stat w a = None) (attachment_paths p).

(** The plugin with the missing paths taken out of its configuration. *)
Definition without_missing_attachments (w : World) (p : Plugin) : Plugin :=
  with_Config
    (with_attachments
       (if decide (os_Stat w (Attachment (P_Config p)) = None)
        then Attachment (P_Config p) else "")
       (filter (λ a, os_Stat w a = None) (Attachments (P_Config p)))
       (P_Config p))
    p.

(** What [Exec] does once the recipient map is built (lines 161-310). *)
Definition after_recipients (w : World) (p : Plugin) (recipientsMap : gset string)
  : M unit :=
  client <- new_client w p (build_options p) ;;
  rendered <- render w p ;;
  let '(html, plainBody, subject) := rendered in
  dispatch w p client recipientsMap html plainBody subject.

(** ** Log lines of the skipped inputs *)

(** The log lines of lines 121-157. *)
Definition is_resolution_line (ev : Event) : bool :=
  match ev with
  | EvLog _ SkippingEmptyRecipientFromConfig
  | EvLog _ CommitAuthorEmailIsEmpty
  | EvLog _ (SkippingEmptyRecipientFromFile _)
  | EvLog _ (CouldNotOpenRecipientsFile _ _) => true
  | _ => false
  end.

(** ** The recipients file that does not open *)

Definition without_recipients_file (p : Plugin) : Plugin :=
  with_Config (with_RecipientsFile "" (P_Config p)) p.

(** ** The options of the mail client *)

Definition is_new_client (ev : Event) : bool :=
  match ev with EvNewClient _ _ _ => true | _ => false end.

(** The STARTTLS policies and the TLS configurations among the options. *)
Definition tls_port_policies (options : list MailOption) : list TLSPolicy :=
  omap (λ o, match o with WithTLSPortPolicy policy => Some policy | _ => None end) options.

Definition tls_configs (options : list MailOption) : list tls_Config :=
  omap (λ o, match o with WithTLSConfig cfg => Some cfg | _ => None end) options.

(** ** The steps of a run, with the answers of the world *)

(** The client that [mail.NewClient] yields for this plugin. *)
Definition the_client (p : Plugin) : Client :=
  mkClient (Host (P_Config p)) (build_options p).

(** The runs of the loop of lines 260-308 over the recipients [rs]: each
    iteration checks the From header, then the To header, then sends; the
    first answer that is an error ends the loop. *)
Inductive loop_steps (w : World) (p : Plugin) (client : Client)
    (html plainBody subject : string) :
    list string → list Event → result unit → Prop :=
| steps_done : loop_steps w p client html plainBody subject [] [] (Ok tt)
| steps_sent r rs t res :
    from_check w p = None →
    msg_To w r = None →
    client_Send w client (message_for w p html plainBody subject r) = None →
    loop_steps w p client html plainBody subject rs t res →
    loop_steps w p client html plainBody subject (r :: rs)
      (EvSend (message_for w p html plainBody subject r) None :: t) res
| steps_from_failed r rs err :
    from_check w p = Some err →
    loop_steps w p client html plainBody subject (r :: rs)
      [EvLog LvlError (CouldNotSetFromHeader err)] (Err err)
| steps_to_failed r rs err :
    from_check w p = None →
    msg_To w r = Some err →
    loop_steps w p client html plainBody subject (r :: rs)
      [EvLog LvlError (CouldNotSetToHeader err)] (Err err)
| steps_send_failed r rs err :
    from_check w p = None →
    msg_To w r = None →
    client_Send w client (message_for w p html plainBody subject r) = Some err →
    loop_steps w p client html plainBody subject (r :: rs)
      [EvSend (message_for w p html plainBody subject r) (Some err);
       EvLog LvlError (CouldNotSendEmailTo r err)]
      (Err err).

(** The four ways a run of [Exec] can go. *)
Inductive Exec_steps (w : World) (p : Plugin) : list Event → option error → Prop :=
| steps_client_failed err :
    mail_NewClient w (Host (P_Config p)) (build_options p) = Some err →
    Exec_steps w p
      (resolution_trace w p
         ++ [EvNewClient (Host (P_Config p)) (build_options p) (Some err);
             EvLog LvlError (ErrorCreatingMailClient err)])
      (Some err)
| steps_render_failed err line :
    mail_NewClient w (Host (P_Config p)) (build_options p) = None →
    render_failure w p err line →
    Exec_steps w p
      (resolution_trace w p
         ++ [EvNewClient (Host (P_Config p)) (build_options p) None;
             EvLog LvlError line])
      (Some err)
| steps_dial_failed html plainBody subject err :
    mail_NewClient w (Host (P_Config p)) (build_options p) = None →
    render w p = ([], Ok (html, plainBody, subject)) →
    client_DialWithContext w (the_client p) = Some err →
    Exec_steps w p
      (resolution_trace w p
         ++ [EvNewClient (Host (P_Config p)) (build_options p) None;
             EvDial (Some err);
             EvLog LvlError (ErrorWhileDialingSMTPServer err)])
      (Some err)
| steps_dispatched html plainBody subject t res :
    mail_NewClient w (Host (P_Config p)) (build_options p) = None →
    render w p = ([], Ok (html, plainBody, subject)) →
    client_DialWithContext w (the_client p) = None →
    loop_steps w p (the_client p) html plainBody subject (iteration_order w p) t res →
    Exec_steps w p
      (resolution_trace w p
         ++ [EvNewClient (Host (P_Config p)) (build_options p) None; EvDial None]
         ++ t ++ [EvClose])
      (match res with Ok _ => None | Err err => Some err end).

(** The error that a log line reports when it precedes a [return err]:
    every [log.Errorf] of [Exec] but the one for the recipients file. *)
Definition fatal_error (line : LogMsg) : option error :=
  match line with
  | ErrorCreatingMailClient err
  | CouldNotRenderBodyTemplate err
  | CouldNotInlineRenderedBody err
  | CouldNotConvertHtmlToText err
  | CouldNotRenderSubjectTemplate err
  | ErrorWhileDialingSMTPServer err
  | CouldNotSetFromHeader err
  | CouldNotSetToHeader err
  | CouldNotSendEmailTo _ err => Some err
  | _ => None
  end.

Definition fatal_of_event (ev : Event) : option error :=
  match ev with
  | EvLog LvlError line => fatal_error line
  | _ => None
  end.

(** The errors of the fatal log lines of a trace, in order. *)
Definition fatal_errors (t : list Event) : list error := omap fatal_of_event t.

Definition is_info (ev : Event) : bool :=
  match ev with EvLog LvlInfo _ => true | _ => false end.

(** Kinds of client options. *)
Definition is_port_option (o : MailOption) : bool :=
  match o with WithPort _ => true | _ => false end.
Definition is_helo_option (o : MailOption) : bool :=
  match o with WithHELO _ => true | _ => false end.
Definition is_auth_option (o : MailOption) : bool :=
  match o with
  | WithSMTPAuth _ | WithUsername _ | WithPassword _ => true
  | _ => false
  end.


(** Further concrete runs. *)
Module Cases.

(** The world of [Fixtures.world_with None []], but the From address does
    not parse. *)
Definition world_refusing_from : World :=
  {| os_Open := os_Open (Fixtures.world_with None []);
     os_Stat := os_Stat (Fixtures.world_with None []);
     template_RenderTrim := template_RenderTrim (Fixtures.world_with None []);
     inliner_Inline := inliner_Inline (Fixtures.world_with None []);
     html2text_FromString := html2text_FromString (Fixtures.world_with None []);
     mail_NewClient := mail_NewClient (Fixtures.world_with None []);
     client_DialWithContext := client_DialWithContext (Fixtures.world_with None []);
     msg_From := λ _, Some "failed to parse mail address";
     msg_FromFormat := λ _ _, Some "failed to parse mail address";
     msg_To := msg_To (Fixtures.world_with None []);
     client_Send := client_Send (Fixtures.world_with None []);
     map_range := elements;
     map_range_perm := Fixtures.elements_order |}.

(** A configuration without a host, which [mail.NewClient] refuses, and
    with a subject template that does not parse. *)
Definition no_host : Plugin :=
  Fixtures.plugin_with "ann@x.com"
    {| FromAddress := "ci@x.com"; FromName := ""; Host := ""; Port := 25;
       Username := "ci"; Password := ""; SkipVerify := false; NoStartTLS := true;
       Recipients := ["a@x.com"]; RecipientsFile := ""; RecipientsOnly := true;
       Subject := "{{"; Body := "<p>done</p>";
       Attachment := ""; Attachments := []; ClientHostname := "ci.x.com" |}.

(** The author is wanted as a recipient next to a configured one. *)
Definition with_author : Plugin :=
  Fixtures.plugin_with "ann@x.com" (Fixtures.config_with ["a@x.com"] "" false "" []).

End Cases.

(** * Proofs *)

(** ** Lemmas on the monad and the loops *)

Lemma bind_Ok {A B} (t : list Event) (a : A) (k : A → M B) :
  bind (t, Ok a) k = (t ++ (k a).1, (k a).2).
Proof. reflexivity. Qed.

Lemma bind_Err {A B} (t : list Event) (e : error) (k : A → M B) :
  bind (t, Err e) k = (t, Err e).
Proof. reflexivity. Qed.

Lemma bind_ret {A B} (a : A) (k : A → M B) : bind (ret a) k = k a.
Proof. unfold bind, ret. by destruct (k a). Qed.

Arguments bind : simpl never.

(** Runs the binds whose first computation is a known event or value. *)
Ltac run_M :=
  unfold log_Warn, log_Warnf, log_Errorf, log_Infof, emit, ret, return_err;
  simpl; repeat (progress (rewrite ?bind_Ok, ?bind_Err; simpl)).

(** A loop that inserts the non-empty entries and warns about the
    others. *)
Lemma for_range_insert (warn : LogMsg)
    (body : string → gset string → M (gset string)) :
  (∀ r m, body r m =
          if decide (r = "") then (log_Warnf warn ;;; ret m)
          else ret ({[r]} ∪ m)) →
  ∀ (rs : list string) (m : gset string),
    for_range rs body m =
    (replicate (length (filter (λ r, r = "") rs)) (EvLog LvlWarn warn),
     Ok (nonempty_entries rs ∪ m)).
Proof.
  intros Hbody rs. unfold nonempty_entries.
  induction rs as [|r rs IH]; intros m; simpl.
  - unfold ret. do 2 f_equal. set_solver.
  - rewrite Hbody. rewrite !filter_cons.
    destruct (decide (r = "")) as [->|Hr].
    + rewrite decide_False by auto. run_M. rewrite IH. reflexivity.
    + rewrite decide_True by auto.
      rewrite bind_ret, IH. do 2 f_equal. set_solver.
Qed.

Lemma add_commit_author_eq (p : Plugin) (m : gset string) :
  add_commit_author p m =
  ((if negb (RecipientsOnly (P_Config p))
    then if decide (Author_Email (Commit_Author (P_Commit p)) = "")
         then [EvLog LvlWarn CommitAuthorEmailIsEmpty] else []
    else []),
   Ok (author_source p ∪ m)).
Proof.
  unfold add_commit_author, author_source.
  destruct (RecipientsOnly (P_Config p)); simpl.
  - unfold ret. do 2 f_equal. set_solver.
  - destruct (decide (Author_Email (Commit_Author (P_Commit p)) = "")) as [He|He].
    + rewrite decide_False by auto. run_M. do 2 f_equal. set_solver.
    + rewrite decide_True by auto. reflexivity.
Qed.

Lemma add_recipients_file_eq (w : World) (p : Plugin) (m : gset string) :
  add_recipients_file w p m = (file_log w p, Ok (file_source w p ∪ m)).
Proof.
  unfold add_recipients_file, file_log, file_source.
  destruct (decide (RecipientsFile (P_Config p) = "")) as [He|He].
  - rewrite decide_False by auto. unfold ret. do 2 f_equal. set_solver.
  - rewrite decide_True by auto.
    destruct (os_Open w (RecipientsFile (P_Config p))) as [f|err].
    + apply (for_range_insert _ (add_file_recipient p)). reflexivity.
    + run_M. do 2 f_equal. set_solver.
Qed.

Lemma build_recipients_eq (w : World) (p : Plugin) :
  build_recipients w p =
  (resolution_log w p
     ++ [EvLog LvlInfo (RecipientsAre (config_source p ∪ author_source p ∪ file_source w p))],
   Ok (config_source p ∪ author_source p ∪ file_source w p)).
Proof.
  unfold build_recipients, resolution_log.
  rewrite (for_range_insert _ add_config_recipient) by reflexivity.
  rewrite bind_Ok, add_commit_author_eq, bind_Ok, add_recipients_file_eq, bind_Ok.
  replace (file_source w p ∪ (author_source p ∪ (nonempty_entries (Recipients (P_Config p)) ∪ ∅)))
    with (config_source p ∪ author_source p ∪ file_source w p)
    by (unfold config_source; set_solver).
  run_M. rewrite <- !app_assoc. reflexivity.
Qed.

Lemma resolved_recipients_eq (w : World) (p : Plugin) :
  resolved_recipients w p = config_source p ∪ author_source p ∪ file_source w p.
Proof. unfold resolved_recipients. by rewrite build_recipients_eq. Qed.

Lemma elem_of_nonempty_entries (x : string) (l : list string) :
  x ∈ nonempty_entries l ↔ x ∈ l ∧ x ≠ "".
Proof.
  unfold nonempty_entries. rewrite elem_of_list_to_set, list_elem_of_filter. tauto.
Qed.

Lemma set_from_header_eq (w : World) (p : Plugin) (msg : Msg) :
  set_from_header w p msg =
  match from_check w p with
  | Some err => ([EvLog LvlError (CouldNotSetFromHeader err)], Err err)
  | None => ([], Ok (set_From (from_value p) msg))
  end.
Proof.
  unfold set_from_header, from_check, from_value.
  destruct (decide (FromName (P_Config p) ≠ "")).
  - by destruct (msg_FromFormat w _ _).
  - by destruct (msg_From w _).
Qed.

Lemma send_to_eq (w : World) (p : Plugin) (client : Client)
    (html plainBody subject recipient : string) (u : unit) :
  send_to w p client html plainBody subject recipient u =
  match from_check w p with
  | Some err => ([EvLog LvlError (CouldNotSetFromHeader err)], Err err)
  | None =>
      match msg_To w recipient with
      | Some err => ([EvLog LvlError (CouldNotSetToHeader err)], Err err)
      | None =>
          match client_Send w client (message_for w p html plainBody subject recipient) with
          | Some err =>
              ([EvSend (message_for w p html plainBody subject recipient) (Some err);
                EvLog LvlError (CouldNotSendEmailTo recipient err)], Err err)
          | None =>
              ([EvSend (message_for w p html plainBody subject recipient) None], Ok tt)
          end
      end
  end.
Proof.
  unfold send_to. rewrite set_from_header_eq.
  destruct (from_check w p) as [err|]; [reflexivity|].
  rewrite bind_Ok. unfold set_to_header.
  destruct (msg_To w recipient) as [err|]; [reflexivity|].
  run_M. unfold send, message_for.
  by destruct (client_Send w client _).
Qed.

Lemma attachments_fold (w : World) (l : list string) (msg : Msg) :
  attachments (fold_left (attach_if_exists w) l msg) =
  attachments msg ++ filter (λ a, os_Stat w a = None) l.
Proof.
  revert msg. induction l as [|a l IH]; intros msg; simpl.
  - by rewrite app_nil_r.
  - rewrite IH, filter_cons. unfold attach_if_exists.
    destruct (os_Stat w a) as [err|] eqn:Ha; simpl.
    + done.
    + by rewrite <- app_assoc.
Qed.

Lemma fold_attach_fields (w : World) (l : list string) (msg : Msg) :
  let msg' := fold_left (attach_if_exists w) l msg in
  hdr_From msg' = hdr_From msg ∧ hdr_To msg' = hdr_To msg
  ∧ hdr_Subject msg' = hdr_Subject msg ∧ body_parts msg' = body_parts msg.
Proof.
  revert msg. induction l as [|a l IH]; intros msg; simpl; [done|].
  destruct (IH (attach_if_exists w msg a)) as (-> & -> & -> & ->).
  unfold attach_if_exists. by destruct (os_Stat w a).
Qed.

Lemma add_attachments_fields (w : World) (p : Plugin) (msg : Msg) :
  hdr_From (add_attachments w p msg) = hdr_From msg
  ∧ hdr_To (add_attachments w p msg) = hdr_To msg
  ∧ hdr_Subject (add_attachments w p msg) = hdr_Subject msg
  ∧ body_parts (add_attachments w p msg) = body_parts msg.
Proof.
  unfold add_attachments.
  match goal with |- context [fold_left _ _ ?m] =>
    destruct (fold_attach_fields w (Attachments (P_Config p)) m) as (-> & -> & -> & ->)
  end.
  destruct (decide (Attachment (P_Config p) ≠ "")); [|done].
  unfold attach_if_exists. by destruct (os_Stat w _).
Qed.

Lemma message_for_To (w : World) (p : Plugin) (html plainBody subject r : string) :
  hdr_To (message_for w p html plainBody subject r) = [r].
Proof.
  unfold message_for.
  by destruct (add_attachments_fields w p
    (msg_AddAlternativeString TypeTextHTML html
       (msg_SetBodyString TypeTextPlain plainBody
          (msg_Subject subject
             (set_To r (set_From (from_value p) mail_NewMsg))))))
    as (_ & -> & _ & _).
Qed.

Lemma for_range_send_to (w : World) (p : Plugin) (client : Client)
    (html plainBody subject : string) (rs : list string) :
  loop_run (message_for w p html plainBody subject) rs
    (for_range rs (send_to w p client html plainBody subject) tt).1
    (for_range rs (send_to w p client html plainBody subject) tt).2.
Proof.
  induction rs as [|r rs IH]; simpl; [constructor|].
  rewrite send_to_eq.
  destruct (from_check w p) as [err|]; [constructor|].
  destruct (msg_To w r) as [err|]; [constructor|].
  destruct (client_Send w client _) as [err|]; [constructor|].
  rewrite bind_Ok. simpl. destruct (for_range rs _ tt) as [t [[]|err]] eqn:E;
    simpl in *; by constructor.
Qed.

Section LoopRun.

Variable msgf : string → Msg.
Hypothesis msgf_To : ∀ r, hdr_To (msgf r) = [r].


Lemma loop_run_events (rs : list string) (t : list Event) (res : result unit) :
  loop_run msgf rs t res →
  ∀ ev, ev ∈ t → is_send ev = true ∨ is_log ev = true.
Proof.
  clear msgf_To.
  induction 1; intros ev Hev; set_solver.
Qed.

Lemma loop_run_sends (rs : list string) (t : list Event) (res : result unit) :
  loop_run msgf rs t res →
  ∀ msg r', EvSend msg r' ∈ t → ∃ r, r ∈ rs ∧ msg = msgf r.
Proof.
  clear msgf_To.
  induction 1 as [|r rs t res H IH|r rs err|r rs err|r rs err]; intros msg r' Hev.
  - set_solver.
  - apply elem_of_cons in Hev as [Hev|Hev].
    + inversion Hev; subst. exists r. set_solver.
    + destruct (IH _ _ Hev) as (r0 & ? & ?). exists r0. set_solver.
  - set_solver.
  - set_solver.
  - apply elem_of_cons in Hev as [Hev|Hev]; [|set_solver].
    inversion Hev; subst. exists r. set_solver.
Qed.

Lemma loop_run_Ok (rs : list string) (t : list Event) (res : result unit) :
  loop_run msgf rs t res → res = Ok tt →
  t = map (λ r, EvSend (msgf r) None) rs ∧ delivered t = rs ∧ attempted t = rs.
Proof.
  induction 1 as [|r rs t res H IH|r rs err|r rs err|r rs err]; intros Hres;
    try discriminate; [done|].
  destruct (IH Hres) as (-> & Hd & Ha). simpl.
  rewrite msgf_To, Hd, Ha. done.
Qed.

Lemma loop_run_Err (rs : list string) (t : list Event) (res : result unit) (err : error) :
  loop_run msgf rs t res → res = Err err →
  ∃ pre r post, rs = pre ++ r :: post ∧ delivered t = pre
    ∧ (∀ msg, EvSend msg None ∈ t → ∃ r', r' ∈ pre ∧ msg = msgf r').
Proof.
  induction 1 as [|r rs t res H IH|r rs e|r rs e|r rs e]; intros Hres;
    try discriminate.
  - destruct (IH Hres) as (pre & r0 & post & -> & Hd & Hs).
    exists (r :: pre), r0, post. simpl. rewrite msgf_To, Hd.
    split; [done|]. split; [done|].
    intros msg Hmsg. apply elem_of_cons in Hmsg as [Hmsg|Hmsg].
    + inversion Hmsg; subst. exists r. set_solver.
    + destruct (Hs _ Hmsg) as (r' & ? & ?). exists r'. set_solver.
  - exists [], r, rs. set_solver.
  - exists [], r, rs. set_solver.
  - exists [], r, rs. simpl. split; [done|]. split; [done|].
    intros msg Hmsg. set_solver.
Qed.

(** A failed send is the last send of the loop: the recipients before it
    were sent to, those after it were not tried. *)
Lemma loop_run_failed_send (rs : list string) (t : list Event) (res : result unit)
    (msg : Msg) (err : error) :
  loop_run msgf rs t res → EvSend msg (Some err) ∈ t →
  ∃ pre r post, rs = pre ++ r :: post ∧ msg = msgf r ∧ res = Err err
    ∧ t = map (λ r', EvSend (msgf r') None) pre
          ++ [EvSend msg (Some err); EvLog LvlError (CouldNotSendEmailTo r err)]
    ∧ delivered t = pre ∧ attempted t = pre ++ [r].
Proof.
  induction 1 as [|r rs t res H IH|r rs e|r rs e|r rs e]; intros Hev.
  - set_solver.
  - apply elem_of_cons in Hev as [Hev|Hev]; [discriminate|].
    destruct (IH Hev) as (pre & r0 & post & -> & -> & -> & Ht & Hd & Ha).
    exists (r :: pre), r0, post. simpl. rewrite msgf_To, Hd, Ha, <- Ht. done.
  - set_solver.
  - set_solver.
  - apply elem_of_cons in Hev as [Hev|Hev]; [|set_solver].
    inversion Hev; subst. exists [], r, rs. simpl. by rewrite msgf_To.
Qed.

End LoopRun.

Lemma render_failure_run (w : World) (p : Plugin) (err : error) (line : LogMsg) :
  render_failure w p err line →
  render w p = ([EvLog LvlError line], Err err).
Proof.
  unfold render.
  destruct 1 as [e H1|rb e H1 H2|rb h e H1 H2 H3|rb h pl e H1 H2 H3 H4].
  - by rewrite H1.
  - by rewrite H1, bind_ret, H2.
  - by rewrite H1, bind_ret, H2, bind_ret, H3.
  - by rewrite H1, bind_ret, H2, bind_ret, H3, bind_ret, H4.
Qed.

Lemma render_cases (w : World) (p : Plugin) :
  (∃ html plainBody subject, render w p = ([], Ok (html, plainBody, subject)))
  ∨ (∃ err line, render_failure w p err line).
Proof.
  destruct (template_RenderTrim w (Body (P_Config p)) (ctx p)) as [rb|e] eqn:H1;
    [|right; eauto using render_failure].
  destruct (inliner_Inline w rb) as [h|e] eqn:H2;
    [|right; eauto using render_failure].
  destruct (html2text_FromString w h) as [pl|e] eqn:H3;
    [|right; eauto using render_failure].
  destruct (template_RenderTrim w (Subject (P_Config p)) (ctx p)) as [s|e] eqn:H4;
    [|right; eauto using render_failure].
  left. exists h, pl, s. unfold render.
  rewrite H1, bind_ret, H2, bind_ret, H3, bind_ret, H4. reflexivity.
Qed.

Lemma Exec_runs (w : World) (p : Plugin) :
  Exec_run w p (Exec w p).1 (Exec w p).2.
Proof.
  unfold Exec, Exec_M. rewrite build_recipients_eq, bind_Ok.
  rewrite <- resolved_recipients_eq. fold (resolution_trace w p).
  unfold new_client.
  destruct (mail_NewClient w (Host (P_Config p)) (build_options p)) as [e|] eqn:Hc.
  { run_M. by apply run_client_failed. }
  run_M.
  destruct (render_cases w p) as [(h & pl & s & Hr)|(e & line & Hf)].
  2: { rewrite (render_failure_run _ _ _ _ Hf). run_M.
       by apply (run_render_failed w p e line). }
  rewrite Hr. run_M. unfold dispatch, dial.
  destruct (client_DialWithContext w _) as [e|] eqn:Hd.
  { run_M. by apply (run_dial_failed w p h pl s e). }
  run_M. unfold defer.
  pose proof (for_range_send_to w p (mkClient (Host (P_Config p)) (build_options p))
                h pl s (iteration_order w p)) as Hloop.
  unfold iteration_order in *.
  destruct (for_range _ _ tt) as [t res]. simpl in *.
  pose proof (run_dispatched w p h pl s t res Hc Hr Hd Hloop) as Hrun.
  by destruct res as [[]|e].
Qed.

Lemma resolution_log_logs (w : World) (p : Plugin) (ev : Event) :
  ev ∈ resolution_log w p → is_log ev = true.
Proof.
  unfold resolution_log, file_log. rewrite !elem_of_app.
  intros [H|[H|H]].
  - by apply elem_of_replicate in H as [-> _].
  - destruct (negb _); [|set_solver]. destruct (decide _); set_solver.
  - destruct (decide _); [set_solver|].
    destruct (os_Open w _); [|set_solver].
    by apply elem_of_replicate in H as [-> _].
Qed.

Lemma resolution_trace_logs (w : World) (p : Plugin) (ev : Event) :
  ev ∈ resolution_trace w p → is_log ev = true.
Proof.
  unfold resolution_trace. rewrite elem_of_app.
  intros [H|H]; [by eapply resolution_log_logs|]. set_solver.
Qed.

(** ** Reading traces: helper lemmas *)

Lemma delivered_app (t1 t2 : list Event) :
  delivered (t1 ++ t2) = delivered t1 ++ delivered t2.
Proof.
  induction t1 as [|ev t1 IH]; [done|].
  destruct ev as [| | |msg [e|]|]; simpl; rewrite ?IH, ?app_assoc; done.
Qed.

Lemma attempted_app (t1 t2 : list Event) :
  attempted (t1 ++ t2) = attempted t1 ++ attempted t2.
Proof.
  induction t1 as [|ev t1 IH]; [done|].
  destruct ev; simpl; rewrite ?IH, ?app_assoc; done.
Qed.

Lemma attempted_no_send (t : list Event) :
  (∀ ev, ev ∈ t → is_send ev = false) → attempted t = [].
Proof.
  induction t as [|ev t IH]; intros H; [done|].
  assert (is_send ev = false) as Hev by (apply H; set_solver).
  destruct ev; try discriminate; simpl; apply IH; set_solver.
Qed.

Lemma delivered_no_send (t : list Event) :
  (∀ ev, ev ∈ t → is_send ev = false) → delivered t = [].
Proof.
  induction t as [|ev t IH]; intros H; [done|].
  assert (is_send ev = false) as Hev by (apply H; set_solver).
  destruct ev; try discriminate; simpl; apply IH; set_solver.
Qed.

Lemma logs_no_send (t : list Event) :
  (∀ ev, ev ∈ t → is_log ev = true) → ∀ ev, ev ∈ t → is_send ev = false.
Proof. intros H ev Hev. apply H in Hev. by destruct ev. Qed.

Lemma attempted_resolution_trace (w : World) (p : Plugin) :
  attempted (resolution_trace w p) = [].
Proof.
  apply attempted_no_send, logs_no_send. intros ev. apply resolution_trace_logs.
Qed.

Lemma delivered_resolution_trace (w : World) (p : Plugin) :
  delivered (resolution_trace w p) = [].
Proof.
  apply delivered_no_send, logs_no_send. intros ev. apply resolution_trace_logs.
Qed.

Lemma occurrences_app (ev : Event) (t1 t2 : list Event) :
  occurrences ev (t1 ++ t2) = occurrences ev t1 + occurrences ev t2.
Proof. unfold occurrences. by rewrite filter_app, length_app. Qed.

Lemma occurrences_0 (ev : Event) (t : list Event) :
  ev ∉ t → occurrences ev t = 0.
Proof.
  unfold occurrences. induction t as [|ev' t IH]; intros H; [done|].
  rewrite filter_cons. rewrite decide_False by set_solver. apply IH. set_solver.
Qed.

Lemma occurrences_replicate (ev ev' : Event) (n : nat) :
  occurrences ev (replicate n ev') = if decide (ev' = ev) then n else 0.
Proof.
  unfold occurrences. induction n as [|n IH]; simpl.
  - by destruct (decide _).
  - rewrite filter_cons. destruct (decide (ev' = ev)); simpl; by rewrite IH.
Qed.

Lemma iteration_order_NoDup (w : World) (p : Plugin) :
  NoDup (iteration_order w p).
Proof.
  unfold iteration_order. rewrite map_range_perm. apply NoDup_elements.
Qed.

Lemma elem_of_iteration_order (w : World) (p : Plugin) (x : string) :
  x ∈ iteration_order w p ↔ x ∈ resolved_recipients w p.
Proof.
  unfold iteration_order. rewrite map_range_perm. apply elem_of_elements.
Qed.


(** The events of the loop are sends and log lines; none is a dial, a
    close or a client creation. *)
Lemma loop_run_not_in (msgf : string → Msg) (rs : list string) (t : list Event)
    (res : result unit) (ev : Event) :
  loop_run msgf rs t res → is_send ev = false → is_log ev = false → ev ∉ t.
Proof.
  intros Hrun Hs Hl Hev.
  destruct (loop_run_events msgf rs t res Hrun ev Hev); congruence.
Qed.


(** Closes a goal about a concrete run by evaluation. *)
Ltac by_evaluation :=
  first [ reflexivity
        | vm_compute; reflexivity
        | apply (bool_decide_unpack _); vm_compute; exact I ].

(** ** Recipient resolution *)


(** The example of the specification: the recipients
    [["a@x.com"; "a@x.com"; ""]] with a file of the lines [a@x.com],
    [b@x.com] and an empty line give exactly the two addresses. *)
Example resolved_recipients_example :
  resolved_recipients (Fixtures.world_with None [])
    (Fixtures.plugin_with "ann@x.com"
       (Fixtures.config_with ["a@x.com"; "a@x.com"; ""] "rcpts.txt" true "" []))
  = {["a@x.com"; "b@x.com"]}.
Proof. vm_compute. reflexivity. Qed.

(** Addresses that differ in case or in surrounding blanks are different
    recipients. *)
Example resolved_recipients_no_normalisation :
  size (resolved_recipients (Fixtures.world_with None [])
          (Fixtures.plugin_with "ann@x.com"
             (Fixtures.config_with ["a@x.com"; "A@x.com"; " a@x.com"] "" true "" [])))
  = 3.
Proof. vm_compute. reflexivity. Qed.

(** ** The SMTP session *)

(** C2. If the send to the recipient at position [N] of the iteration
    fails, [Exec] returns the error of that send; the recipients before
    position [N] have been sent their message and stay sent; no send is
    tried for a recipient after position [N]; the failure is logged with
    the failing recipient, and nothing but that log line and the close
    of the connection follows the failed send. *)
Theorem C2_send_failure_aborts (w : World) (p : Plugin) (N : nat) (r : string)
    (msg : Msg) (err : error) :
  iteration_order w p !! N = Some r →
  hdr_To msg = [r] →
  EvSend msg (Some err) ∈ (Exec w p).1 →
  (Exec w p).2 = Some err
  ∧ delivered (Exec w p).1 = take N (iteration_order w p)
  ∧ attempted (Exec w p).1 = take (S N) (iteration_order w p)
  ∧ (∀ r', r' ∈ drop (S N) (iteration_order w p) → r' ∉ attempted (Exec w p).1)
  ∧ (∃ t, (Exec w p).1 =
          t ++ [EvSend msg (Some err);
                EvLog LvlError (CouldNotSendEmailTo r err);
                EvClose]).
Proof.
  intros HN HTo Hev.
  pose proof (iteration_order_NoDup w p) as Hnd.
  destruct (Exec_runs w p) as [e Hc|e line Hc Hf|h pl s e Hc Hr Hd|h pl s t res Hc Hr Hd Hloop].
  1-3: exfalso; apply elem_of_app in Hev as [Hev|Hev];
       [by apply resolution_trace_logs in Hev|set_solver].
  apply elem_of_app in Hev as [Hev|Hev]; [by apply resolution_trace_logs in Hev|].
  apply elem_of_app in Hev as [Hev|Hev]; [set_solver|].
  apply elem_of_app in Hev as [Hev|Hev]; [|set_solver].
  destruct (loop_run_failed_send _ (message_for_To w p h pl s) _ _ _ _ _ Hloop Hev)
    as (pre & r0 & post & Hrs & -> & -> & Ht & Hdel & Hatt).
  rewrite message_for_To in HTo. injection HTo as <-.
  assert (N = length pre) as ->.
  { eapply NoDup_lookup; [exact Hnd|exact HN|].
    rewrite Hrs. by rewrite list_lookup_middle. }
  rewrite !delivered_app, !attempted_app, delivered_resolution_trace,
    attempted_resolution_trace, Hdel, Hatt. simpl. rewrite !app_nil_r.
  rewrite Hrs in *.
  split; [done|]. split; [by rewrite take_app_length|].
  split.
  { replace (pre ++ r0 :: post) with ((pre ++ [r0]) ++ post) by by rewrite <- app_assoc.
    replace (S (length pre)) with (length (pre ++ [r0])) by (rewrite length_app; simpl; lia).
    by rewrite take_app_length. }
  split.
  { intros r'.
    replace (pre ++ r0 :: post) with ((pre ++ [r0]) ++ post) in * by by rewrite <- app_assoc.
    replace (S (length pre)) with (length (pre ++ [r0])) by (rewrite length_app; simpl; lia).
    rewrite drop_app_length. intros Hpost Hin.
    apply NoDup_app in Hnd as (_ & Hdis & _). by apply (Hdis r'). }
  exists (resolution_trace w p
            ++ [EvNewClient (Host (P_Config p)) (build_options p) None; EvDial None]
            ++ map (λ r', EvSend (message_for w p h pl s r') None) pre).
  rewrite Ht. rewrite <- ?app_assoc. simpl. rewrite <- ?app_assoc. reflexivity.
Qed.

Lemma C2_send_failure_aborts_witness :
  iteration_order (Fixtures.world_with None ["a@x.com"]) Fixtures.three_recipients !! 1
    = Some "a@x.com"
  ∧ (Exec (Fixtures.world_with None ["a@x.com"]) Fixtures.three_recipients).2
    = Some "550 mailbox unavailable"
  ∧ delivered (Exec (Fixtures.world_with None ["a@x.com"]) Fixtures.three_recipients).1
    = ["c@x.com"]
  ∧ ("b@x.com" ∉
      attempted (Exec (Fixtures.world_with None ["a@x.com"]) Fixtures.three_recipients).1).
Proof.
  assert (iteration_order (Fixtures.world_with None ["a@x.com"])
            Fixtures.three_recipients !! 1 = Some "a@x.com") as HN by by_evaluation.
  assert (hdr_To (Fixtures.message_to "a@x.com" []) = ["a@x.com"]) as HTo by by_evaluation.
  assert (EvSend (Fixtures.message_to "a@x.com" []) (Some "550 mailbox unavailable")
          ∈ (Exec (Fixtures.world_with None ["a@x.com"]) Fixtures.three_recipients).1)
    as Hev by by_evaluation.
  destruct (C2_send_failure_aborts _ _ _ _ _ _ HN HTo Hev) as (Hres & Hdel & _ & Hafter & _).
  split; [exact HN|]. split; [exact Hres|].
  split; [rewrite Hdel; by_evaluation|].
  apply Hafter. by_evaluation.
Defined.

(** C3. When the dial succeeds, the connection is closed exactly once,
    and the close is the last thing [Exec] does.  This holds for every
    run, whatever [Exec] returns: after all recipients were sent to,
    after a refused From or To header, and after a failed send. *)
Theorem C3_closed_exactly_once (w : World) (p : Plugin) :
  EvDial None ∈ (Exec w p).1 →
  occurrences EvClose (Exec w p).1 = 1
  ∧ ∃ t, (Exec w p).1 = t ++ [EvClose] ∧ EvClose ∉ t.
Proof.
  intros Hev.
  destruct (Exec_runs w p) as [e Hc|e line Hc Hf|h pl s e Hc Hr Hd|h pl s t res Hc Hr Hd Hloop].
  1-3: exfalso; apply elem_of_app in Hev as [Hev|Hev];
       [by apply resolution_trace_logs in Hev|set_solver].
  assert (EvClose ∉ resolution_trace w p
                    ++ [EvNewClient (Host (P_Config p)) (build_options p) None; EvDial None]
                    ++ t) as Hno.
  { rewrite !elem_of_app. intros [H|[H|H]].
    - by apply resolution_trace_logs in H.
    - set_solver.
    - by apply (loop_run_not_in _ _ _ _ EvClose Hloop). }
  split.
  - rewrite !app_assoc, occurrences_app, occurrences_0; [done|].
    by rewrite <- !app_assoc.
  - exists (resolution_trace w p
              ++ [EvNewClient (Host (P_Config p)) (build_options p) None; EvDial None]
              ++ t).
    split; [by rewrite <- !app_assoc|exact Hno].
Qed.

Lemma C3_closed_exactly_once_witness :
  EvDial None ∈ (Exec (Fixtures.world_with None ["a@x.com"]) Fixtures.three_recipients).1
  ∧ occurrences EvClose
      (Exec (Fixtures.world_with None ["a@x.com"]) Fixtures.three_recipients).1 = 1.
Proof.
  assert (EvDial None
          ∈ (Exec (Fixtures.world_with None ["a@x.com"]) Fixtures.three_recipients).1)
    as Hev by by_evaluation.
  split; [exact Hev|].
  exact (proj1 (C3_closed_exactly_once _ _ Hev)).
Defined.

(** The three ways out of the loop, each ending with the one close. *)
Example close_after_normal_completion :
  (Exec (Fixtures.world_with None []) Fixtures.three_recipients).2 = None
  ∧ last (Exec (Fixtures.world_with None []) Fixtures.three_recipients).1 = Some EvClose
  ∧ occurrences EvClose
      (Exec (Fixtures.world_with None []) Fixtures.three_recipients).1 = 1.
Proof. repeat split; by_evaluation. Qed.

Example close_after_header_failure :
  (Exec (Fixtures.world_full None [] ["a@x.com"]) Fixtures.three_recipients).2
    = Some "failed to parse mail address"
  ∧ delivered (Exec (Fixtures.world_full None [] ["a@x.com"]) Fixtures.three_recipients).1
    = ["c@x.com"]
  ∧ last (Exec (Fixtures.world_full None [] ["a@x.com"]) Fixtures.three_recipients).1
    = Some EvClose
  ∧ occurrences EvClose
      (Exec (Fixtures.world_full None [] ["a@x.com"]) Fixtures.three_recipients).1 = 1.
Proof. repeat split; by_evaluation. Qed.

Example close_after_send_failure :
  (Exec (Fixtures.world_with None ["a@x.com"]) Fixtures.three_recipients).2
    = Some "550 mailbox unavailable"
  ∧ last (Exec (Fixtures.world_with None ["a@x.com"]) Fixtures.three_recipients).1
    = Some EvClose
  ∧ occurrences EvClose
      (Exec (Fixtures.world_with None ["a@x.com"]) Fixtures.three_recipients).1 = 1.
Proof. repeat split; by_evaluation. Qed.

(** C4. When the dial fails, [Exec] returns the error of the dial, no
    message is handed to [client.Send], and the connection is not
    closed. *)
Theorem C4_dial_failure (w : World) (p : Plugin) (err : error) :
  EvDial (Some err) ∈ (Exec w p).1 →
  (Exec w p).2 = Some err
  ∧ client_DialWithContext w (mkClient (Host (P_Config p)) (build_options p)) = Some err
  ∧ attempted (Exec w p).1 = []
  ∧ (∀ ev, ev ∈ (Exec w p).1 → is_send ev = false)
  ∧ EvClose ∉ (Exec w p).1.
Proof.
  intros Hev.
  destruct (Exec_runs w p) as [e Hc|e line Hc Hf|h pl s e Hc Hr Hd|h pl s t res Hc Hr Hd Hloop].
  1-2: exfalso; apply elem_of_app in Hev as [Hev|Hev];
       [by apply resolution_trace_logs in Hev|set_solver].
  - apply elem_of_app in Hev as [Hev|Hev]; [by apply resolution_trace_logs in Hev|].
    assert (e = err) as -> by set_solver.
    assert (∀ ev, ev ∈ resolution_trace w p
                    ++ [EvNewClient (Host (P_Config p)) (build_options p) None;
                        EvDial (Some err);
                        EvLog LvlError (ErrorWhileDialingSMTPServer err)]
                  → is_send ev = false) as Hns.
    { intros ev [H|H]%elem_of_app.
      - apply resolution_trace_logs in H. by destruct ev.
      - set_solver. }
    split; [done|]. split; [done|]. split; [by apply attempted_no_send|].
    split; [exact Hns|].
    intros [H|H]%elem_of_app; [by apply resolution_trace_logs in H|set_solver].
  - exfalso. apply elem_of_app in Hev as [Hev|Hev];
      [by apply resolution_trace_logs in Hev|].
    apply elem_of_app in Hev as [Hev|Hev]; [set_solver|].
    apply elem_of_app in Hev as [Hev|Hev]; [|set_solver].
    by apply (loop_run_not_in _ _ _ _ _ Hloop) in Hev.
Qed.

Lemma C4_dial_failure_witness :
  EvDial (Some "dial tcp: connection refused")
    ∈ (Exec (Fixtures.world_with (Some "dial tcp: connection refused") [])
         Fixtures.three_recipients).1
  ∧ (Exec (Fixtures.world_with (Some "dial tcp: connection refused") [])
       Fixtures.three_recipients).2 = Some "dial tcp: connection refused"
  ∧ attempted (Exec (Fixtures.world_with (Some "dial tcp: connection refused") [])
                 Fixtures.three_recipients).1 = [].
Proof.
  assert (EvDial (Some "dial tcp: connection refused")
            ∈ (Exec (Fixtures.world_with (Some "dial tcp: connection refused") [])
                 Fixtures.three_recipients).1) as Hev by by_evaluation.
  destruct (C4_dial_failure _ _ _ Hev) as (Hres & _ & Hatt & _).
  split; [exact Hev|]. split; [exact Hres|exact Hatt].
Defined.

(** C5. When the client was created and one of the four rendering steps
    (body template, CSS inlining, plain text, subject template) fails,
    [Exec] returns the error of that step; the run has no dial, no send
    and no close, and it ends with the log line of the failure. *)
Theorem C5_render_failure (w : World) (p : Plugin) (err : error) (line : LogMsg) :
  mail_NewClient w (Host (P_Config p)) (build_options p) = None →
  render_failure w p err line →
  (Exec w p).2 = Some err
  ∧ (∀ ev, ev ∈ (Exec w p).1 → is_dial ev = false ∧ is_send ev = false ∧ is_close ev = false)
  ∧ attempted (Exec w p).1 = []
  ∧ last (Exec w p).1 = Some (EvLog LvlError line).
Proof.
  intros Hc Hf.
  assert (Exec w p =
          (resolution_trace w p
             ++ [EvNewClient (Host (P_Config p)) (build_options p) None;
                 EvLog LvlError line], Some err)) as ->.
  { unfold Exec, Exec_M. rewrite build_recipients_eq, bind_Ok.
    rewrite <- resolved_recipients_eq. fold (resolution_trace w p).
    unfold new_client. rewrite Hc. run_M.
    rewrite (render_failure_run _ _ _ _ Hf). by run_M. }
  simpl.
  assert (∀ ev, ev ∈ resolution_trace w p
                  ++ [EvNewClient (Host (P_Config p)) (build_options p) None;
                      EvLog LvlError line]
                → is_dial ev = false ∧ is_send ev = false ∧ is_close ev = false) as Hno.
  { intros ev [H|H]%elem_of_app.
    - apply resolution_trace_logs in H. by destruct ev.
    - apply elem_of_cons in H as [->|H]; [done|].
      apply elem_of_cons in H as [->|H]; [done|]. by apply elem_of_nil in H. }
  split; [done|]. split; [exact Hno|].
  split; [apply attempted_no_send; intros ev H; apply Hno in H; tauto|].
  by rewrite last_app.
Qed.

Lemma C5_render_failure_witness :
  (Exec (Fixtures.world_with None [])
     (Fixtures.plugin_with "ann@x.com"
        {| FromAddress := "ci@x.com"; FromName := ""; Host := "smtp.x.com"; Port := 25;
           Username := ""; Password := ""; SkipVerify := false; NoStartTLS := false;
           Recipients := ["a@x.com"]; RecipientsFile := ""; RecipientsOnly := false;
           Subject := "{{"; Body := "<p>done</p>";
           Attachment := ""; Attachments := []; ClientHostname := "" |})).2
  = Some "template: parse error".
Proof.
  refine (proj1 (C5_render_failure _ _ "template: parse error"
                   (CouldNotRenderSubjectTemplate "template: parse error") _ _)).
  - by_evaluation.
  - apply (subject_template_fails _ _ "<p>done</p>" "<p>done</p>" "<p>done</p>");
      by_evaluation.
Defined.

Lemma Exec_M_after_recipients (w : World) (p : Plugin) :
  Exec_M w p = (recipientsMap <- build_recipients w p ;; after_recipients w p recipientsMap).
Proof. reflexivity. Qed.

Lemma for_range_ext {A S} (l : list A) (body body' : A → S → M S) (s : S) :
  (∀ x s, body x s = body' x s) → for_range l body s = for_range l body' s.
Proof.
  intros H. revert s. induction l as [|x l IH]; intros s; simpl; [done|].
  rewrite H. destruct (body' x s) as [t [s'|e]]; [|done].
  by rewrite !bind_Ok, IH.
Qed.

Lemma add_attachments_attachments (w : World) (p : Plugin) (msg : Msg) :
  attachments (add_attachments w p msg) = attachments msg ++ existing_attachments w p.
Proof.
  unfold add_attachments, existing_attachments, attachment_paths.
  rewrite attachments_fold, filter_app.
  destruct (decide (Attachment (P_Config p) ≠ "")); simpl; [|done].
  rewrite filter_cons, filter_nil. unfold attach_if_exists.
  destruct (os_Stat w (Attachment (P_Config p))) eqn:E; simpl.
  - done.
  - by rewrite <- app_assoc.
Qed.

Lemma message_for_attachments (w : World) (p : Plugin) (html plainBody subject r : string) :
  attachments (message_for w p html plainBody subject r) = existing_attachments w p.
Proof. unfold message_for. by rewrite add_attachments_attachments. Qed.

Lemma fold_attach_filter (w : World) (l : list string) (msg : Msg) :
  fold_left (attach_if_exists w) (filter (λ a, os_Stat w a = None) l) msg
  = fold_left (attach_if_exists w) l msg.
Proof.
  revert msg. induction l as [|a l IH]; intros msg; [done|].
  rewrite filter_cons.
  destruct (decide (os_Stat w a = None)) as [E|E]; simpl; rewrite IH; [done|].
  f_equal. unfold attach_if_exists. by destruct (os_Stat w a).
Qed.

Lemma add_attachments_without_missing (w : World) (p : Plugin) (msg : Msg) :
  add_attachments w (without_missing_attachments w p) msg = add_attachments w p msg.
Proof.
  unfold add_attachments, without_missing_attachments. simpl.
  rewrite fold_attach_filter. f_equal.
  destruct (os_Stat w (Attachment (P_Config p))) as [e|] eqn:E; simpl.
  - destruct (decide (Attachment (P_Config p) ≠ "")); [|done].
    unfold attach_if_exists. by rewrite E.
  - done.
Qed.

Lemma send_to_without_missing (w : World) (p : Plugin) (client : Client)
    (html plainBody subject r : string) (u : unit) :
  send_to w (without_missing_attachments w p) client html plainBody subject r u
  = send_to w p client html plainBody subject r u.
Proof.
  rewrite !send_to_eq.
  change (from_check w (without_missing_attachments w p)) with (from_check w p).
  unfold message_for. rewrite add_attachments_without_missing.
  change (from_value (without_missing_attachments w p)) with (from_value p).
  reflexivity.
Qed.

(** A run does not tell a missing path from a path that is not
    configured: same events, same returned error. *)
Lemma Exec_without_missing_attachments (w : World) (p : Plugin) :
  Exec w (without_missing_attachments w p) = Exec w p.
Proof.
  unfold Exec. rewrite !Exec_M_after_recipients.
  change (build_recipients w (without_missing_attachments w p))
    with (build_recipients w p).
  destruct (build_recipients w p) as [t1 [m|e]]; [|done].
  rewrite !bind_Ok. unfold after_recipients.
  change (build_options (without_missing_attachments w p)) with (build_options p).
  change (new_client w (without_missing_attachments w p)) with (new_client w p).
  change (render w (without_missing_attachments w p)) with (render w p).
  destruct (new_client w p (build_options p)) as [t2 [c|e]]; [|done].
  rewrite !bind_Ok.
  destruct (render w p) as [t3 [[[h pl] s]|e]]; [|done].
  rewrite !bind_Ok. unfold dispatch.
  rewrite (for_range_ext _ _ (send_to w p c h pl s)); [done|].
  intros. apply send_to_without_missing.
Qed.

(** C6. Every message that is handed to [client.Send] carries exactly the
    configured paths that exist, in the order of the configuration: a
    path of [Attachment] or [Attachments] that exists is attached, a path
    that does not exist is not.  A missing path changes nothing else: the
    run is the run of the configuration without the missing paths, with
    the same sends and the same returned error. *)
Theorem C6_attachments (w : World) (p : Plugin) (msg : Msg) (res : option error) :
  EvSend msg res ∈ (Exec w p).1 →
  attachments msg = existing_attachments w p
  ∧ (∀ a, a ∈ attachment_paths p → os_Stat w a = None → a ∈ attachments msg)
  ∧ (∀ a, os_Stat w a ≠ None → a ∉ attachments msg)
  ∧ Exec w p = Exec w (without_missing_attachments w p).
Proof.
  intros Hev.
  assert (attachments msg = existing_attachments w p) as Hatt.
  { destruct (Exec_runs w p)
      as [e Hc|e line Hc Hf|h pl s e Hc Hr Hd|h pl s t r Hc Hr Hd Hloop].
    1-3: exfalso; apply elem_of_app in Hev as [Hev|Hev];
         [by apply resolution_trace_logs in Hev|set_solver].
    apply elem_of_app in Hev as [Hev|Hev]; [by apply resolution_trace_logs in Hev|].
    apply elem_of_app in Hev as [Hev|Hev]; [set_solver|].
    apply elem_of_app in Hev as [Hev|Hev]; [|set_solver].
    destruct (loop_run_sends _ _ _ _ Hloop _ _ Hev) as (r0 & _ & ->).
    apply message_for_attachments. }
  rewrite Hatt. unfold existing_attachments.
  split; [done|]. split; [intros a ? ?; by apply list_elem_of_filter|].
  split; [intros a Ha [? ?]%list_elem_of_filter; done|].
  by rewrite Exec_without_missing_attachments.
Qed.

Lemma C6_attachments_witness :
  EvSend (Fixtures.message_to "a@x.com" ["report.txt"]) None
    ∈ (Exec (Fixtures.world_with None []) Fixtures.one_file_of_three).1
  ∧ attachments (Fixtures.message_to "a@x.com" ["report.txt"])
    = existing_attachments (Fixtures.world_with None []) Fixtures.one_file_of_three
  ∧ ("missing.txt" ∉ attachments (Fixtures.message_to "a@x.com" ["report.txt"]))
  ∧ (Exec (Fixtures.world_with None []) Fixtures.one_file_of_three).2 = None.
Proof.
  assert (EvSend (Fixtures.message_to "a@x.com" ["report.txt"]) None
            ∈ (Exec (Fixtures.world_with None []) Fixtures.one_file_of_three).1)
    as Hev by by_evaluation.
  destruct (C6_attachments _ _ _ _ Hev) as (Hatt & _ & Hmiss & _).
  split; [exact Hev|]. split; [exact Hatt|].
  split; [apply Hmiss; discriminate|by_evaluation].
Defined.

Lemma filter_all {A} (P : A → Prop) `{∀ x, Decision (P x)} (l : list A) :
  (∀ x, x ∈ l → P x) → filter P l = l.
Proof.
  induction l as [|x l IH]; intros Hall; [done|].
  rewrite filter_cons, decide_True by (apply Hall; set_solver).
  f_equal. apply IH. intros y Hy. apply Hall. set_solver.
Qed.

Lemma filter_none {A} (P : A → Prop) `{∀ x, Decision (P x)} (l : list A) :
  (∀ x, x ∈ l → ¬ P x) → filter P l = [].
Proof.
  induction l as [|x l IH]; intros Hall; [done|].
  rewrite filter_cons, decide_False by (apply Hall; set_solver).
  apply IH. intros y Hy. apply Hall. set_solver.
Qed.

Lemma resolution_log_lines (w : World) (p : Plugin) (ev : Event) :
  ev ∈ resolution_log w p → is_resolution_line ev = true.
Proof.
  unfold resolution_log, file_log. rewrite !elem_of_app.
  intros [H|[H|H]].
  - by apply elem_of_replicate in H as [-> _].
  - destruct (negb _); [|set_solver]. destruct (decide _); set_solver.
  - destruct (decide _); [set_solver|].
    destruct (os_Open w _); [|set_solver].
    by apply elem_of_replicate in H as [-> _].
Qed.

Lemma loop_run_no_resolution_line (msgf : string → Msg) (rs : list string)
    (t : list Event) (res : result unit) :
  loop_run msgf rs t res → ∀ ev, ev ∈ t → is_resolution_line ev = false.
Proof. induction 1; intros ev Hev; set_solver. Qed.

(** The lines of the resolution are the only lines of their kind in a
    run. *)
Lemma Exec_resolution_lines (w : World) (p : Plugin) :
  filter (λ ev, is_resolution_line ev = true) (Exec w p).1 = resolution_log w p.
Proof.
  assert (∃ rest, (Exec w p).1 = resolution_log w p ++ rest
                  ∧ ∀ ev, ev ∈ rest → is_resolution_line ev = false)
    as (rest & -> & Hrest).
  { destruct (Exec_runs w p)
      as [e Hc|e line Hc Hf|h pl s e Hc Hr Hd|h pl s t r Hc Hr Hd Hloop];
      unfold resolution_trace; rewrite <- app_assoc; eexists; (split; [reflexivity|]).
    - intros ev Hev. set_solver.
    - intros ev Hev. destruct Hf; set_solver.
    - intros ev Hev. set_solver.
    - intros ev. rewrite !elem_of_app. intros [H|[H|[H|H]]]; [set_solver|set_solver| |set_solver].
      by apply (loop_run_no_resolution_line _ _ _ _ Hloop). }
  rewrite filter_app, filter_all, filter_none.
  - apply app_nil_r.
  - intros ev Hev. rewrite (Hrest ev Hev). discriminate.
  - intros ev. apply resolution_log_lines.
Qed.

Lemma occurrences_filter (P : Event → bool) (ev : Event) (t : list Event) :
  P ev = true → occurrences ev (filter (λ ev', P ev' = true) t) = occurrences ev t.
Proof.
  intros HP. unfold occurrences. induction t as [|ev' t IH]; [done|].
  rewrite !filter_cons.
  destruct (decide (ev' = ev)) as [->|Hne].
  - rewrite decide_True by done. rewrite filter_cons, decide_True by done.
    simpl. by rewrite IH.
  - destruct (decide (P ev' = true)); [|done].
    by rewrite filter_cons, decide_False.
Qed.

Lemma occurrences_resolution_line (w : World) (p : Plugin) (ev : Event) :
  is_resolution_line ev = true →
  occurrences ev (Exec w p).1 = occurrences ev (resolution_log w p).
Proof.
  intros Hev. by rewrite <- (occurrences_filter is_resolution_line), Exec_resolution_lines.
Qed.

Lemma occurrences_singleton (ev ev' : Event) :
  occurrences ev [ev'] = if decide (ev' = ev) then 1 else 0.
Proof. unfold occurrences. rewrite filter_cons. by destruct (decide _). Qed.

Lemma occurrences_nil (ev : Event) : occurrences ev [] = 0.
Proof. reflexivity. Qed.



(** The other three skips of C7 in one run: an empty entry, an empty
    author email and an unreadable recipients file are each logged, and
    the mail still goes out to the remaining recipient. *)
Example skips_are_logged :
  filter (λ ev, is_log ev = true)
    (Exec (Fixtures.world_with None [])
       (Fixtures.plugin_with ""
          (Fixtures.config_with ["a@x.com"; ""] "nobody.txt" false "" []))).1
  = [EvLog LvlWarn SkippingEmptyRecipientFromConfig;
     EvLog LvlWarn CommitAuthorEmailIsEmpty;
     EvLog LvlError
       (CouldNotOpenRecipientsFile "nobody.txt" "open: no such file or directory");
     EvLog LvlInfo (RecipientsAre {["a@x.com"]})]
  ∧ delivered
      (Exec (Fixtures.world_with None [])
         (Fixtures.plugin_with ""
            (Fixtures.config_with ["a@x.com"; ""] "nobody.txt" false "" []))).1
    = ["a@x.com"].
Proof. split; by_evaluation. Qed.

(** C8. When a recipients file is configured and [os.Open] fails, the
    failure is logged once and nothing else changes: the recipient map
    is the union of the other two sources, and the run is the run of the
    configuration without a recipients file with that one log line
    added, so [Exec] returns what it returns without the file. *)
Theorem C8_unreadable_recipients_file (w : World) (p : Plugin) (err : error) :
  RecipientsFile (P_Config p) ≠ "" →
  os_Open w (RecipientsFile (P_Config p)) = Err err →
  occurrences
    (EvLog LvlError (CouldNotOpenRecipientsFile (RecipientsFile (P_Config p)) err))
    (Exec w p).1 = 1
  ∧ (build_recipients w p).2 = Ok (config_source p ∪ author_source p)
  ∧ resolved_recipients w p = resolved_recipients w (without_recipients_file p)
  ∧ (Exec w p).2 = (Exec w (without_recipients_file p)).2
  ∧ ∃ t1 t2,
      (Exec w p).1
        = t1 ++ EvLog LvlError
                  (CouldNotOpenRecipientsFile (RecipientsFile (P_Config p)) err) :: t2
      ∧ (Exec w (without_recipients_file p)).1 = t1 ++ t2.
Proof.
  intros Hfile Hopen.
  assert (file_source w p = ∅) as Hsrc.
  { unfold file_source. by rewrite decide_False, Hopen. }
  assert (file_log w p =
          [EvLog LvlError (CouldNotOpenRecipientsFile (RecipientsFile (P_Config p)) err)])
    as Hlog.
  { unfold file_log. by rewrite decide_False, Hopen. }
  assert (resolved_recipients w p = config_source p ∪ author_source p) as Hres.
  { rewrite resolved_recipients_eq, Hsrc. set_solver. }
  assert (resolved_recipients w (without_recipients_file p)
          = config_source p ∪ author_source p) as Hres'.
  { rewrite resolved_recipients_eq.
    change (config_source (without_recipients_file p)) with (config_source p).
    change (author_source (without_recipients_file p)) with (author_source p).
    unfold file_source. simpl. set_solver. }
  split.
  { rewrite occurrences_resolution_line by done.
    unfold resolution_log. rewrite Hlog, !occurrences_app, occurrences_replicate,
      decide_False by discriminate.
    destruct (negb _); [destruct (decide (Author_Email _ = ""))|];
      rewrite ?occurrences_singleton, ?occurrences_nil;
      repeat case_decide; try congruence; lia. }
  split; [by rewrite build_recipients_eq, Hsrc, union_empty_r_L|].
  split; [by rewrite Hres, Hres'|].
  unfold Exec. rewrite !Exec_M_after_recipients, !build_recipients_eq, !bind_Ok.
  rewrite <- !resolved_recipients_eq, Hres, Hres'.
  change (after_recipients w (without_recipients_file p))
    with (after_recipients w p).
  destruct (after_recipients w p (config_source p ∪ author_source p)) as [t [[]|e]];
    simpl.
  all: (split; [done|]).
  all: unfold resolution_log; rewrite Hlog.
  all: exists
         (replicate (length (filter (λ r, r = "") (Recipients (P_Config p))))
            (EvLog LvlWarn SkippingEmptyRecipientFromConfig)
          ++ (if negb (RecipientsOnly (P_Config p))
              then if decide (Author_Email (Commit_Author (P_Commit p)) = "")
                   then [EvLog LvlWarn CommitAuthorEmailIsEmpty] else []
              else [])),
         (EvLog LvlInfo (RecipientsAre (config_source p ∪ author_source p)) :: t).
  all: split; [by rewrite <- !app_assoc|].
  all: unfold file_log, without_recipients_file; simpl.
  all: by rewrite app_nil_r, <- !app_assoc.
Qed.

Lemma C8_unreadable_recipients_file_witness :
  occurrences
    (EvLog LvlError
       (CouldNotOpenRecipientsFile "nobody.txt" "open: no such file or directory"))
    (Exec (Fixtures.world_with None []) Fixtures.unreadable_file).1 = 1
  ∧ (Exec (Fixtures.world_with None []) Fixtures.unreadable_file).2 = None
  ∧ delivered (Exec (Fixtures.world_with None []) Fixtures.unreadable_file).1
    = ["ann@x.com"; "a@x.com"].
Proof.
  assert (RecipientsFile (P_Config Fixtures.unreadable_file) ≠ "") as Hfile
    by discriminate.
  assert (os_Open (Fixtures.world_with None [])
            (RecipientsFile (P_Config Fixtures.unreadable_file))
          = Err "open: no such file or directory") as Hopen by by_evaluation.
  destruct (C8_unreadable_recipients_file _ _ _ Hfile Hopen) as (Hlog & _ & _ & Hres & _).
  split; [exact Hlog|]. split; [rewrite Hres|]; by_evaluation.
Defined.

(** C9. [Exec] creates one mail client, for [Config.Host] with the
    options of lines 162-192.  Among them is exactly one STARTTLS
    policy: [NoTLS] when [NoStartTLS] is set, [TLSOpportunistic]
    otherwise; and a TLS configuration is among them exactly when
    [SkipVerify] is set, and it switches certificate verification off. *)
Theorem C9_tls_options (w : World) (p : Plugin) :
  filter (λ ev, is_new_client ev = true) (Exec w p).1
    = [EvNewClient (Host (P_Config p)) (build_options p)
         (mail_NewClient w (Host (P_Config p)) (build_options p))]
  ∧ tls_port_policies (build_options p)
    = [if NoStartTLS (P_Config p) then NoTLS else TLSOpportunistic]
  ∧ tls_configs (build_options p)
    = (if SkipVerify (P_Config p) then [{| InsecureSkipVerify := true |}] else []).
Proof.
  split.
  - assert (∀ t, (∀ ev, ev ∈ t → is_new_client ev = false) →
                 filter (λ ev, is_new_client ev = true) t = []) as Hnone.
    { intros t Ht. apply filter_none. intros ev Hev. rewrite (Ht ev Hev). discriminate. }
    assert (filter (λ ev, is_new_client ev = true) (resolution_trace w p) = []) as Hpre.
    { apply Hnone. intros ev Hev. apply resolution_trace_logs in Hev. by destruct ev. }
    destruct (Exec_runs w p)
      as [e Hc|e line Hc Hf|h pl s e Hc Hr Hd|h pl s t r Hc Hr Hd Hloop];
      rewrite Hc, filter_app, Hpre; try reflexivity.
    simpl. rewrite filter_cons, decide_True by done. f_equal.
    rewrite filter_cons, decide_False by discriminate.
    rewrite filter_app, (Hnone t); [reflexivity|].
    intros ev Hev.
    destruct (loop_run_events _ _ _ _ Hloop ev Hev); by destruct ev.
  - unfold build_options, tls_port_policies, tls_configs.
    destruct (decide (ClientHostname (P_Config p) ≠ ""));
      destruct (decide (Username (P_Config p) ≠ "" ∧ Password (P_Config p) ≠ ""));
      destruct (SkipVerify (P_Config p)); destruct (NoStartTLS (P_Config p));
      split; reflexivity.
Qed.

(** ** No recipient *)



(** With no recipient a failed dial is still the error of the run. *)
Example no_recipient_dial_failure :
  (Exec (Fixtures.world_with (Some "dial tcp: connection refused") [])
     Fixtures.no_recipient)
  = ([EvLog LvlInfo (RecipientsAre ∅);
      EvNewClient "smtp.x.com"
        (build_options Fixtures.no_recipient) None;
      EvDial (Some "dial tcp: connection refused");
      EvLog LvlError (ErrorWhileDialingSMTPServer "dial tcp: connection refused")],
     Some "dial tcp: connection refused").
Proof. by_evaluation. Qed.


(** * Further properties of [Exec] *)

(** ** The steps of a run *)

Lemma for_range_loop_steps (w : World) (p : Plugin) (client : Client)
    (html plainBody subject : string) (rs : list string) :
  loop_steps w p client html plainBody subject rs
    (for_range rs (send_to w p client html plainBody subject) tt).1
    (for_range rs (send_to w p client html plainBody subject) tt).2.
Proof.
  induction rs as [|r rs IH]; simpl; [constructor|].
  rewrite send_to_eq.
  destruct (from_check w p) as [err|] eqn:Hfrom; [by constructor|].
  destruct (msg_To w r) as [err|] eqn:Hto; [by constructor|].
  destruct (client_Send w client _) as [err|] eqn:Hsend; [by constructor|].
  rewrite bind_Ok. simpl. by constructor.
Qed.

Lemma loop_steps_run (w : World) (p : Plugin) (client : Client)
    (html plainBody subject : string) (rs : list string) (t : list Event)
    (res : result unit) :
  loop_steps w p client html plainBody subject rs t res →
  loop_run (message_for w p html plainBody subject) rs t res.
Proof. induction 1; by constructor. Qed.

Lemma Exec_steps_hold (w : World) (p : Plugin) :
  Exec_steps w p (Exec w p).1 (Exec w p).2.
Proof.
  unfold Exec, Exec_M. rewrite build_recipients_eq, bind_Ok.
  rewrite <- resolved_recipients_eq. fold (resolution_trace w p).
  unfold new_client.
  destruct (mail_NewClient w (Host (P_Config p)) (build_options p)) as [e|] eqn:Hc.
  { run_M. by apply steps_client_failed. }
  run_M.
  destruct (render_cases w p) as [(h & pl & s & Hr)|(e & line & Hf)].
  2: { rewrite (render_failure_run _ _ _ _ Hf). run_M.
       by apply (steps_render_failed w p e line). }
  rewrite Hr. run_M. unfold dispatch, dial.
  fold (the_client p).
  destruct (client_DialWithContext w (the_client p)) as [e|] eqn:Hd.
  { run_M. by apply (steps_dial_failed w p h pl s e). }
  run_M. unfold defer.
  pose proof (for_range_loop_steps w p (the_client p) h pl s (iteration_order w p))
    as Hloop.
  unfold iteration_order in *.
  destruct (for_range _ _ tt) as [t res]. simpl in *.
  pose proof (steps_dispatched w p h pl s t res Hc Hr Hd Hloop) as Hrun.
  by destruct res as [[]|e].
Qed.

Lemma render_Ok (w : World) (p : Plugin) (t : list Event) (html plainBody subject : string) :
  render w p = (t, Ok (html, plainBody, subject)) →
  ∃ renderedBody,
    template_RenderTrim w (Body (P_Config p)) (ctx p) = Ok renderedBody
    ∧ inliner_Inline w renderedBody = Ok html
    ∧ html2text_FromString w html = Ok plainBody
    ∧ template_RenderTrim w (Subject (P_Config p)) (ctx p) = Ok subject.
Proof.
  unfold render.
  destruct (template_RenderTrim w (Body (P_Config p)) (ctx p)) as [rb|e] eqn:H1;
    [|run_M; discriminate].
  rewrite bind_ret.
  destruct (inliner_Inline w rb) as [h|e] eqn:H2; [|run_M; discriminate].
  rewrite bind_ret.
  destruct (html2text_FromString w h) as [pl|e] eqn:H3; [|run_M; discriminate].
  rewrite bind_ret.
  destruct (template_RenderTrim w (Subject (P_Config p)) (ctx p)) as [s|e] eqn:H4;
    [|run_M; discriminate].
  rewrite bind_ret. unfold ret. intros [= _ <- <- <-]. by exists rb.
Qed.

Lemma message_for_fields (w : World) (p : Plugin) (html plainBody subject r : string) :
  hdr_From (message_for w p html plainBody subject r) = Some (from_value p)
  ∧ hdr_Subject (message_for w p html plainBody subject r) = subject
  ∧ body_parts (message_for w p html plainBody subject r)
    = [(TypeTextPlain, plainBody); (TypeTextHTML, html)].
Proof.
  unfold message_for.
  by destruct (add_attachments_fields w p
    (msg_AddAlternativeString TypeTextHTML html
       (msg_SetBodyString TypeTextPlain plainBody
          (msg_Subject subject
             (set_To r (set_From (from_value p) mail_NewMsg))))))
    as (-> & _ & -> & ->).
Qed.

Section LoopSteps.

Variable w : World.
Variable p : Plugin.
Variable client : Client.
Variables html plainBody subject : string.

Local Abbreviation steps := (loop_steps w p client html plainBody subject).
Local Abbreviation msgf := (message_for w p html plainBody subject).

Lemma loop_steps_order (rs : list string) (t : list Event) (res : result unit) :
  steps rs t res →
  delivered t `prefix_of` attempted t
  ∧ attempted t `prefix_of` rs
  ∧ (length (attempted t) ≤ S (length (delivered t)))%nat.
Proof.
  induction 1 as [|r rs t res Hf Ht Hs H IH|r rs e Hf|r rs e Hf Ht|r rs e Hf Ht Hs];
    simpl; rewrite ?message_for_To; simpl.
  - split; [done|]. split; [done|lia].
  - destruct IH as (IH1 & IH2 & IH3).
    split; [by apply prefix_cons|]. split; [by apply prefix_cons|lia].
  - split; [done|]. split; [apply prefix_nil|lia].
  - split; [done|]. split; [apply prefix_nil|lia].
  - split; [apply prefix_nil|]. split; [|lia].
    apply prefix_cons, prefix_nil.
Qed.

Lemma loop_steps_fatal (rs : list string) (t : list Event) (res : result unit) :
  steps rs t res →
  fatal_errors t = match res with Ok _ => [] | Err err => [err] end.
Proof. induction 1; done. Qed.

Lemma loop_steps_error (rs : list string) (t : list Event) (err : error) :
  steps rs t (Err err) →
  from_check w p = Some err
  ∨ ∃ r, r ∈ rs ∧ (msg_To w r = Some err ∨ client_Send w client (msgf r) = Some err).
Proof.
  remember (Err err) as res eqn:Hres.
  induction 1 as [|r rs t res Hf Ht Hs H IH|r rs e Hf|r rs e Hf Ht|r rs e Hf Ht Hs];
    try discriminate.
  - destruct (IH Hres) as [?|(r' & ? & ?)]; [by left|].
    right. exists r'. split; [set_solver|done].
  - injection Hres as ->. by left.
  - injection Hres as ->. right. exists r. split; [set_solver|by left].
  - injection Hres as ->. right. exists r. split; [set_solver|by right].
Qed.

Lemma loop_steps_send (rs : list string) (t : list Event) (res : result unit)
    (msg : Msg) (res' : option error) :
  steps rs t res → EvSend msg res' ∈ t →
  from_check w p = None
  ∧ ∃ r, r ∈ rs ∧ msg = msgf r ∧ msg_To w r = None ∧ res' = client_Send w client msg.
Proof.
  induction 1 as [|r rs t res Hf Ht Hs H IH|r rs e Hf|r rs e Hf Ht|r rs e Hf Ht Hs];
    intros Hev.
  - by apply elem_of_nil in Hev.
  - split; [done|]. apply elem_of_cons in Hev as [Hev|Hev].
    + injection Hev as -> ->. exists r. rewrite Hs. set_solver.
    + destruct (IH Hev) as (_ & r' & ? & ? & ? & ?). exists r'. set_solver.
  - set_solver.
  - set_solver.
  - split; [done|]. apply elem_of_cons in Hev as [Hev|Hev]; [|set_solver].
    injection Hev as -> ->. exists r. rewrite Hs. set_solver.
Qed.

Lemma loop_steps_from_failed (rs : list string) (t : list Event) (res : result unit)
    (err : error) :
  steps rs t res → from_check w p = Some err → rs ≠ [] →
  t = [EvLog LvlError (CouldNotSetFromHeader err)] ∧ res = Err err.
Proof.
  destruct 1 as [|r rs t res Hf Ht Hs H|r rs e Hf|r rs e Hf Ht|r rs e Hf Ht Hs];
    intros Hfrom Hne; try congruence.
  rewrite Hf in Hfrom. by injection Hfrom as ->.
Qed.

Lemma loop_steps_to_failed (rs : list string) (t : list Event) (res : result unit)
    (err : error) :
  steps rs t res → EvLog LvlError (CouldNotSetToHeader err) ∈ t →
  ∃ pre r post, rs = pre ++ r :: post ∧ msg_To w r = Some err ∧ res = Err err
    ∧ t = map (λ r', EvSend (msgf r') None) pre
          ++ [EvLog LvlError (CouldNotSetToHeader err)]
    ∧ delivered t = pre ∧ attempted t = pre.
Proof.
  induction 1 as [|r rs t res Hf Ht Hs H IH|r rs e Hf|r rs e Hf Ht|r rs e Hf Ht Hs];
    intros Hev.
  - by apply elem_of_nil in Hev.
  - apply elem_of_cons in Hev as [Hev|Hev]; [discriminate|].
    destruct (IH Hev) as (pre & r0 & post & -> & ? & -> & Heq & Hd & Ha).
    exists (r :: pre), r0, post. simpl.
    rewrite message_for_To, Hd, Ha, <- Heq. done.
  - set_solver.
  - apply elem_of_cons in Hev as [Hev|Hev]; [|by apply elem_of_nil in Hev].
    injection Hev as ->. by exists [], r, rs.
  - set_solver.
Qed.

End LoopSteps.

Lemma fatal_errors_app (t1 t2 : list Event) :
  fatal_errors (t1 ++ t2) = fatal_errors t1 ++ fatal_errors t2.
Proof. apply omap_app. Qed.

Lemma fatal_errors_resolution_trace (w : World) (p : Plugin) :
  fatal_errors (resolution_trace w p) = [].
Proof.
  unfold resolution_trace. rewrite fatal_errors_app. simpl. rewrite app_nil_r.
  assert (∀ t, (∀ ev, ev ∈ t → is_resolution_line ev = true) → fatal_errors t = [])
    as Hnone.
  { induction t as [|ev t IH]; intros Hall; [done|].
    unfold fatal_errors in *. simpl.
    assert (fatal_of_event ev = None) as ->.
    { assert (is_resolution_line ev = true) as Hev by (apply Hall; set_solver).
      destruct ev as [lvl line| | | |]; try discriminate.
      by destruct lvl, line. }
    apply IH. intros ev' Hev'. apply Hall. set_solver. }
  apply Hnone. intros ev. apply resolution_log_lines.
Qed.

Lemma resolution_trace_kinds (w : World) (p : Plugin) (ev : Event) :
  ev ∈ resolution_trace w p → is_resolution_line ev = true ∨ is_info ev = true.
Proof.
  unfold resolution_trace. rewrite elem_of_app. intros [H|H].
  - left. by eapply resolution_log_lines.
  - right. apply elem_of_cons in H as [->|H]; [done|by apply elem_of_nil in H].
Qed.

Lemma resolution_trace_quiet (w : World) (p : Plugin) (ev : Event) :
  ev ∈ resolution_trace w p →
  is_dial ev = false ∧ is_send ev = false ∧ is_close ev = false.
Proof. intros H. apply resolution_trace_logs in H. by destruct ev. Qed.

(** A run that returns nil has sent to the recipients in the order of
    the iteration. *)
Lemma Exec_nil_delivered (w : World) (p : Plugin) :
  (Exec w p).2 = None →
  delivered (Exec w p).1 = iteration_order w p
  ∧ attempted (Exec w p).1 = iteration_order w p
  ∧ EvDial None ∈ (Exec w p).1.
Proof.
  intros Hnil.
  destruct (Exec_steps_hold w p)
    as [e Hc|e line Hc Hf|h pl s e Hc Hr Hd|h pl s t res Hc Hr Hd Hloop];
    try discriminate.
  destruct res as [[]|e]; [|discriminate].
  apply loop_steps_run in Hloop.
  destruct (loop_run_Ok _ (message_for_To w p h pl s) _ _ _ Hloop eq_refl)
    as (_ & Hdel & Hatt).
  rewrite !delivered_app, !attempted_app, delivered_resolution_trace,
    attempted_resolution_trace, Hdel, Hatt. simpl. rewrite !app_nil_r.
  split; [done|]. split; [done|].
  rewrite elem_of_app. right. set_solver.
Qed.

(** ** Client creation *)

(** X1. When [mail.NewClient] refuses the host and options, [Exec]
    returns its error right away: nothing is rendered or reported about
    the templates, nothing is dialed, sent or closed, and the failure of
    the client creation is the only fatal line and the last event. *)
Theorem X1_client_creation_failure (w : World) (p : Plugin) (err : error) :
  mail_NewClient w (Host (P_Config p)) (build_options p) = Some err →
  (Exec w p).2 = Some err
  ∧ (∀ ev, ev ∈ (Exec w p).1 →
           is_dial ev = false ∧ is_send ev = false ∧ is_close ev = false)
  ∧ fatal_errors (Exec w p).1 = [err]
  ∧ last (Exec w p).1 = Some (EvLog LvlError (ErrorCreatingMailClient err)).
Proof.
  intros Hfail.
  destruct (Exec_steps_hold w p)
    as [e Hc|e line Hc Hf|h pl s e Hc Hr Hd|h pl s t res Hc Hr Hd Hloop];
    try congruence.
  assert (e = err) as -> by congruence.
  split; [done|]. split.
  { intros ev [H|H]%elem_of_app; [by apply resolution_trace_quiet in H|].
    apply elem_of_cons in H as [->|H]; [done|].
    apply elem_of_cons in H as [->|H]; [done|]. by apply elem_of_nil in H. }
  split; [by rewrite fatal_errors_app, fatal_errors_resolution_trace|].
  by rewrite last_app.
Qed.

Lemma X1_client_creation_failure_witness :
  (Exec (Fixtures.world_with None []) Cases.no_host).2 = Some "host must not be empty"
  ∧ fatal_errors (Exec (Fixtures.world_with None []) Cases.no_host).1
    = ["host must not be empty"].
Proof.
  assert (mail_NewClient (Fixtures.world_with None []) (Host (P_Config Cases.no_host))
            (build_options Cases.no_host) = Some "host must not be empty")
    as Hfail by by_evaluation.
  destruct (X1_client_creation_failure _ _ _ Hfail) as (Hres & _ & Hfatal & _).
  split; [exact Hres|exact Hfatal].
Defined.

(** X2. The options of the mail client: the configured port is the one
    port option; a HELO name is given exactly when [ClientHostname] is
    not empty; the plain authentication with user name and password is
    given when both [Username] and [Password] are not empty, and no part
    of it when either is empty. *)
Theorem X2_client_options (p : Plugin) :
  filter (λ o, is_port_option o = true) (build_options p)
    = [WithPort (Port (P_Config p))]
  ∧ head (build_options p) = Some (WithPort (Port (P_Config p)))
  ∧ filter (λ o, is_helo_option o = true) (build_options p)
    = (if decide (ClientHostname (P_Config p) = "") then []
       else [WithHELO (ClientHostname (P_Config p))])
  ∧ filter (λ o, is_auth_option o = true) (build_options p)
    = (if decide (Username (P_Config p) = "" ∨ Password (P_Config p) = "") then []
       else [WithSMTPAuth SMTPAuthPlain;
             WithUsername (Username (P_Config p));
             WithPassword (Password (P_Config p))]).
Proof.
  unfold build_options.
  destruct (decide (ClientHostname (P_Config p) ≠ "")) as [Hh|Hh];
    destruct (decide (Username (P_Config p) ≠ "" ∧ Password (P_Config p) ≠ ""))
      as [Ha|Ha];
    destruct (SkipVerify (P_Config p)); destruct (NoStartTLS (P_Config p));
    (split; [reflexivity|]); (split; [reflexivity|]); split;
    cbn [app filter list_filter is_helo_option is_auth_option decide_rel];
    repeat case_decide; try reflexivity; try congruence; try tauto.
  all: exfalso; apply Ha;
    split; intros ?; match goal with H : ¬ (_ ∨ _) |- _ => apply H end; tauto.
Qed.

(** ** What was sent *)

(** X3. When [Exec] returns nil, the connection was dialed and every
    resolved recipient was sent exactly one message, in the order of the
    iteration, and the connection was closed once. *)
Theorem X3_nil_means_all_delivered (w : World) (p : Plugin) :
  (Exec w p).2 = None →
  delivered (Exec w p).1 = iteration_order w p
  ∧ delivered (Exec w p).1 ≡ₚ elements (resolved_recipients w p)
  ∧ NoDup (delivered (Exec w p).1)
  ∧ EvDial None ∈ (Exec w p).1
  ∧ fatal_errors (Exec w p).1 = [].
Proof.
  intros Hnil.
  destruct (Exec_nil_delivered w p Hnil) as (Hdel & _ & Hdial).
  rewrite Hdel.
  split; [done|]. split; [apply map_range_perm|].
  split; [apply iteration_order_NoDup|]. split; [done|].
  destruct (Exec_steps_hold w p)
    as [e Hc|e line Hc Hf|h pl s e Hc Hr Hd|h pl s t res Hc Hr Hd Hloop];
    try discriminate.
  destruct res as [[]|e]; [|discriminate].
  rewrite !fatal_errors_app, fatal_errors_resolution_trace,
    (loop_steps_fatal _ _ _ _ _ _ _ _ _ Hloop). done.
Qed.

Lemma X3_nil_means_all_delivered_witness :
  (Exec (Fixtures.world_with None []) Fixtures.three_recipients).2 = None
  ∧ delivered (Exec (Fixtures.world_with None []) Fixtures.three_recipients).1
    = ["c@x.com"; "a@x.com"; "b@x.com"].
Proof.
  assert ((Exec (Fixtures.world_with None []) Fixtures.three_recipients).2 = None)
    as Hnil by by_evaluation.
  destruct (X3_nil_means_all_delivered _ _ Hnil) as (Hdel & _).
  split; [exact Hnil|]. rewrite Hdel. by_evaluation.
Defined.

(** X4. In every run the sends follow the iteration: the recipients
    handed to [client.Send] are an initial part of the iteration order,
    nobody is tried twice, and the recipients whose send succeeded are
    all of them but possibly the last. *)
Theorem X4_sends_follow_iteration (w : World) (p : Plugin) :
  delivered (Exec w p).1 `prefix_of` attempted (Exec w p).1
  ∧ attempted (Exec w p).1 `prefix_of` iteration_order w p
  ∧ (length (attempted (Exec w p).1) ≤ S (length (delivered (Exec w p).1)))%nat
  ∧ NoDup (attempted (Exec w p).1).
Proof.
  assert (delivered (Exec w p).1 `prefix_of` attempted (Exec w p).1
          ∧ attempted (Exec w p).1 `prefix_of` iteration_order w p
          ∧ (length (attempted (Exec w p).1) ≤ S (length (delivered (Exec w p).1)))%nat)
    as (H1 & H2 & H3).
  { destruct (Exec_steps_hold w p)
      as [e Hc|e line Hc Hf|h pl s e Hc Hr Hd|h pl s t res Hc Hr Hd Hloop];
      rewrite !delivered_app, !attempted_app, delivered_resolution_trace,
        attempted_resolution_trace; simpl; rewrite ?app_nil_r.
    1-3: split; [done|]; split; [apply prefix_nil|lia].
    apply (loop_steps_order _ _ _ _ _ _ _ _ _ Hloop). }
  split; [done|]. split; [done|]. split; [done|].
  destruct H2 as [k Hk]. pose proof (iteration_order_NoDup w p) as Hnd.
  rewrite Hk in Hnd. by apply NoDup_app in Hnd as (? & _).
Qed.

(** X5. Every message handed to [client.Send] has the rendered subject
    and two body parts: first the plain text, then the HTML, where the
    HTML is the inlined rendering of the body template and the plain
    text is derived from that HTML. *)
Theorem X5_message_bodies (w : World) (p : Plugin) (msg : Msg) (res : option error) :
  EvSend msg res ∈ (Exec w p).1 →
  ∃ renderedBody html plainBody subject,
    template_RenderTrim w (Body (P_Config p)) (ctx p) = Ok renderedBody
    ∧ inliner_Inline w renderedBody = Ok html
    ∧ html2text_FromString w html = Ok plainBody
    ∧ template_RenderTrim w (Subject (P_Config p)) (ctx p) = Ok subject
    ∧ hdr_Subject msg = subject
    ∧ body_parts msg = [(TypeTextPlain, plainBody); (TypeTextHTML, html)].
Proof.
  intros Hev.
  destruct (Exec_steps_hold w p)
    as [e Hc|e line Hc Hf|h pl s e Hc Hr Hd|h pl s t r Hc Hr Hd Hloop].
  1-3: exfalso; apply elem_of_app in Hev as [Hev|Hev];
       [by apply resolution_trace_logs in Hev|set_solver].
  apply elem_of_app in Hev as [Hev|Hev]; [by apply resolution_trace_logs in Hev|].
  apply elem_of_app in Hev as [Hev|Hev]; [set_solver|].
  apply elem_of_app in Hev as [Hev|Hev]; [|set_solver].
  destruct (loop_steps_send _ _ _ _ _ _ _ _ _ _ _ Hloop Hev) as (_ & r0 & _ & -> & _).
  destruct (render_Ok _ _ _ _ _ _ Hr) as (rb & H1 & H2 & H3 & H4).
  destruct (message_for_fields w p h pl s r0) as (_ & Hs & Hb).
  exists rb, h, pl, s. by rewrite Hs, Hb.
Qed.

Lemma X5_message_bodies_witness :
  ∃ renderedBody html plainBody subject,
    template_RenderTrim (Fixtures.world_with None [])
      (Body (P_Config Fixtures.three_recipients)) (ctx Fixtures.three_recipients)
      = Ok renderedBody
    ∧ inliner_Inline (Fixtures.world_with None []) renderedBody = Ok html
    ∧ html2text_FromString (Fixtures.world_with None []) html = Ok plainBody
    ∧ template_RenderTrim (Fixtures.world_with None [])
        (Subject (P_Config Fixtures.three_recipients)) (ctx Fixtures.three_recipients)
      = Ok subject
    ∧ hdr_Subject (Fixtures.message_to "a@x.com" []) = subject
    ∧ body_parts (Fixtures.message_to "a@x.com" [])
      = [(TypeTextPlain, plainBody); (TypeTextHTML, html)].
Proof.
  apply (X5_message_bodies (Fixtures.world_with None []) Fixtures.three_recipients
           (Fixtures.message_to "a@x.com" []) None).
  by_evaluation.
Defined.

(** X6. Every message handed to [client.Send] has the From header of the
    configuration (with the display name when [FromName] is set), which
    passed its check, and exactly one To address: a resolved recipient
    whose address passed its check.  The result recorded for the send is
    the answer of [client.Send] for this message on the one client. *)
Theorem X6_message_headers (w : World) (p : Plugin) (msg : Msg) (res : option error) :
  EvSend msg res ∈ (Exec w p).1 →
  hdr_From msg = Some (from_value p)
  ∧ from_check w p = None
  ∧ res = client_Send w (the_client p) msg
  ∧ ∃ r, hdr_To msg = [r] ∧ r ∈ resolved_recipients w p ∧ msg_To w r = None.
Proof.
  intros Hev.
  destruct (Exec_steps_hold w p)
    as [e Hc|e line Hc Hf|h pl s e Hc Hr Hd|h pl s t r Hc Hr Hd Hloop].
  1-3: exfalso; apply elem_of_app in Hev as [Hev|Hev];
       [by apply resolution_trace_logs in Hev|set_solver].
  apply elem_of_app in Hev as [Hev|Hev]; [by apply resolution_trace_logs in Hev|].
  apply elem_of_app in Hev as [Hev|Hev]; [set_solver|].
  apply elem_of_app in Hev as [Hev|Hev]; [|set_solver].
  destruct (loop_steps_send _ _ _ _ _ _ _ _ _ _ _ Hloop Hev)
    as (Hfrom & r0 & Hin & -> & Hto & Hres).
  destruct (message_for_fields w p h pl s r0) as (Hf & _ & _).
  split; [done|]. split; [done|]. split; [done|].
  exists r0. split; [apply message_for_To|].
  split; [by apply elem_of_iteration_order|done].
Qed.

Lemma X6_message_headers_witness :
  hdr_From (Fixtures.message_to "a@x.com" [])
    = Some (FromNamed "CI" "ci@x.com")
  ∧ ∃ r, hdr_To (Fixtures.message_to "a@x.com" []) = [r]
         ∧ r ∈ resolved_recipients (Fixtures.world_with None []) Fixtures.three_recipients
         ∧ msg_To (Fixtures.world_with None []) r = None.
Proof.
  assert (EvSend (Fixtures.message_to "a@x.com" []) None
            ∈ (Exec (Fixtures.world_with None []) Fixtures.three_recipients).1)
    as Hev by by_evaluation.
  destruct (X6_message_headers _ _ _ _ Hev) as (Hfrom & _ & _ & Hto).
  split; [exact Hfrom|exact Hto].
Defined.

(** ** Refused headers *)

(** X7. When the connection is dialed, there is a recipient, and the
    From address of the configuration is refused, [Exec] returns that
    error without handing any message to [client.Send]: the first
    iteration ends the loop, and the connection is closed. *)
Theorem X7_from_refused (w : World) (p : Plugin) (err : error) :
  EvDial None ∈ (Exec w p).1 →
  from_check w p = Some err →
  resolved_recipients w p ≠ ∅ →
  (Exec w p).2 = Some err
  ∧ attempted (Exec w p).1 = []
  ∧ ∃ t, (Exec w p).1
         = t ++ [EvDial None; EvLog LvlError (CouldNotSetFromHeader err); EvClose].
Proof.
  intros Hev Hfrom Hne.
  assert (iteration_order w p ≠ []) as Hrs.
  { apply set_choose_L in Hne as [x Hx].
    apply elem_of_iteration_order in Hx. intros E. rewrite E in Hx.
    by apply elem_of_nil in Hx. }
  destruct (Exec_steps_hold w p)
    as [e Hc|e line Hc Hf|h pl s e Hc Hr Hd|h pl s t res Hc Hr Hd Hloop].
  1-3: exfalso; apply elem_of_app in Hev as [Hev|Hev];
       [by apply resolution_trace_logs in Hev|set_solver].
  destruct (loop_steps_from_failed _ _ _ _ _ _ _ _ _ _ Hloop Hfrom Hrs) as [-> ->].
  split; [done|]. split.
  { by rewrite !attempted_app, attempted_resolution_trace. }
  exists (resolution_trace w p
            ++ [EvNewClient (Host (P_Config p)) (build_options p) None]).
  by rewrite <- !app_assoc.
Qed.

Lemma X7_from_refused_witness :
  (Exec Cases.world_refusing_from Fixtures.three_recipients).2
    = Some "failed to parse mail address"
  ∧ attempted (Exec Cases.world_refusing_from Fixtures.three_recipients).1 = [].
Proof.
  assert (EvDial None ∈ (Exec Cases.world_refusing_from Fixtures.three_recipients).1)
    as Hev by by_evaluation.
  assert (from_check Cases.world_refusing_from Fixtures.three_recipients
          = Some "failed to parse mail address") as Hfrom by by_evaluation.
  assert (resolved_recipients Cases.world_refusing_from Fixtures.three_recipients ≠ ∅)
    as Hne by (apply (bool_decide_unpack _); vm_compute; exact I).
  destruct (X7_from_refused _ _ _ Hev Hfrom Hne) as (Hres & Hatt & _).
  split; [exact Hres|exact Hatt].
Defined.

(** X8. When a run logs that a To header could not be set, the recipient
    at fault is the first one of the iteration whose address is refused:
    [Exec] returns that error, the recipients before it were sent their
    message, and neither it nor any later recipient is handed to
    [client.Send]; the close of the connection is all that follows. *)
Theorem X8_to_refused (w : World) (p : Plugin) (err : error) :
  EvLog LvlError (CouldNotSetToHeader err) ∈ (Exec w p).1 →
  ∃ pre r post,
    iteration_order w p = pre ++ r :: post
    ∧ msg_To w r = Some err
    ∧ (∀ r', r' ∈ pre → msg_To w r' = None)
    ∧ (Exec w p).2 = Some err
    ∧ delivered (Exec w p).1 = pre
    ∧ attempted (Exec w p).1 = pre
    ∧ ∃ t, (Exec w p).1 = t ++ [EvLog LvlError (CouldNotSetToHeader err); EvClose].
Proof.
  intros Hev.
  assert (EvLog LvlError (CouldNotSetToHeader err) ∉ resolution_trace w p) as Hpre.
  { intros H. by destruct (resolution_trace_kinds _ _ _ H). }
  destruct (Exec_steps_hold w p)
    as [e Hc|e line Hc Hf|h pl s e Hc Hr Hd|h pl s t res Hc Hr Hd Hloop].
  1,3: exfalso; apply elem_of_app in Hev as [Hev|Hev]; [done|set_solver].
  { exfalso. apply elem_of_app in Hev as [Hev|Hev]; [done|].
    destruct Hf; set_solver. }
  apply elem_of_app in Hev as [Hev|Hev]; [done|].
  apply elem_of_app in Hev as [Hev|Hev]; [set_solver|].
  apply elem_of_app in Hev as [Hev|Hev]; [|set_solver].
  destruct (loop_steps_to_failed _ _ _ _ _ _ _ _ _ _ Hloop Hev)
    as (pre & r & post & Hrs & Hto & -> & Ht & Hdel & Hatt).
  exists pre, r, post.
  split; [done|]. split; [done|].
  split.
  { intros r' Hr'. rewrite <- Hdel in Hr'.
    assert (∃ msg, EvSend msg None ∈ t ∧ r' ∈ hdr_To msg) as (msg & Hmsg & Hin).
    { clear -Hr'. induction t as [|ev t IH]; [by apply elem_of_nil in Hr'|].
      destruct ev as [| | |m [e|]|]; simpl in Hr';
        try (destruct (IH Hr') as (msg & ? & ?); exists msg; set_solver).
      apply elem_of_app in Hr' as [Hr'|Hr'].
      - exists m. set_solver.
      - destruct (IH Hr') as (msg & ? & ?). exists msg. set_solver. }
    destruct (loop_steps_send _ _ _ _ _ _ _ _ _ _ _ Hloop Hmsg)
      as (_ & r0 & _ & -> & Hok & _).
    rewrite message_for_To in Hin. apply elem_of_cons in Hin as [->|Hin]; [done|].
    by apply elem_of_nil in Hin. }
  split; [done|].
  rewrite !delivered_app, !attempted_app, delivered_resolution_trace,
    attempted_resolution_trace, Hdel, Hatt. simpl. rewrite !app_nil_r.
  split; [done|]. split; [done|].
  exists (resolution_trace w p
            ++ [EvNewClient (Host (P_Config p)) (build_options p) None; EvDial None]
            ++ map (λ r', EvSend (message_for w p h pl s r') None) pre).
  rewrite Ht, <- ?app_assoc. simpl. by rewrite <- ?app_assoc.
Qed.

Lemma X8_to_refused_witness :
  ∃ pre r post,
    iteration_order (Fixtures.world_full None [] ["a@x.com"]) Fixtures.three_recipients
      = pre ++ r :: post
    ∧ msg_To (Fixtures.world_full None [] ["a@x.com"]) r
      = Some "failed to parse mail address"
    ∧ delivered
        (Exec (Fixtures.world_full None [] ["a@x.com"]) Fixtures.three_recipients).1
      = pre.
Proof.
  assert (EvLog LvlError (CouldNotSetToHeader "failed to parse mail address")
          ∈ (Exec (Fixtures.world_full None [] ["a@x.com"]) Fixtures.three_recipients).1)
    as Hev by by_evaluation.
  destruct (X8_to_refused _ _ _ Hev) as (pre & r & post & H1 & H2 & _ & _ & H3 & _).
  exists pre, r, post. split; [exact H1|]. split; [exact H2|exact H3].
Defined.

(** ** Errors and log lines *)

(** X9. A run has a fatal log line exactly when [Exec] returns an error:
    a run that returns nil has none, and a run that returns an error has
    exactly one, which carries the returned error.  (The failure to open
    the recipients file is logged as an error too, but is not fatal.) *)
Theorem X9_error_iff_fatal_line (w : World) (p : Plugin) :
  fatal_errors (Exec w p).1
  = match (Exec w p).2 with None => [] | Some err => [err] end.
Proof.
  destruct (Exec_steps_hold w p)
    as [e Hc|e line Hc Hf|h pl s e Hc Hr Hd|h pl s t res Hc Hr Hd Hloop];
    rewrite !fatal_errors_app, fatal_errors_resolution_trace; simpl.
  - done.
  - by destruct Hf.
  - done.
  - rewrite (loop_steps_fatal _ _ _ _ _ _ _ _ _ Hloop).
    destruct res as [[]|e]; by rewrite app_nil_r.
Qed.

(** X10. An error that [Exec] returns is the error of one of its calls:
    of [mail.NewClient], of a rendering step, of the dial, of the check
    of the From address, or of the check of the address of a resolved
    recipient or of the send of that recipient's message.  [Exec] returns
    no error of its own and none of [os.Open] or [os.Stat]. *)
Theorem X10_error_provenance (w : World) (p : Plugin) (err : error) :
  (Exec w p).2 = Some err →
  mail_NewClient w (Host (P_Config p)) (build_options p) = Some err
  ∨ (∃ line, render_failure w p err line)
  ∨ client_DialWithContext w (the_client p) = Some err
  ∨ from_check w p = Some err
  ∨ ∃ r, r ∈ resolved_recipients w p
         ∧ (msg_To w r = Some err
            ∨ ∃ msg, hdr_To msg = [r] ∧ client_Send w (the_client p) msg = Some err).
Proof.
  intros Hres.
  destruct (Exec_steps_hold w p)
    as [e Hc|e line Hc Hf|h pl s e Hc Hr Hd|h pl s t res Hc Hr Hd Hloop].
  - left. congruence.
  - right; left. injection Hres as <-. by exists line.
  - right; right; left. congruence.
  - destruct res as [[]|e]; [discriminate|]. injection Hres as ->.
    right; right; right.
    destruct (loop_steps_error _ _ _ _ _ _ _ _ _ Hloop) as [Hfrom|(r & Hin & Hr')];
      [by left|].
    right. exists r. split; [by apply elem_of_iteration_order|].
    destruct Hr' as [?|Hsend]; [by left|]. right.
    eexists. split; [apply message_for_To|exact Hsend].
Qed.

Lemma X10_error_provenance_witness :
  mail_NewClient (Fixtures.world_with None ["a@x.com"])
      (Host (P_Config Fixtures.three_recipients))
      (build_options Fixtures.three_recipients) = Some "550 mailbox unavailable"
  ∨ (∃ line, render_failure (Fixtures.world_with None ["a@x.com"])
               Fixtures.three_recipients "550 mailbox unavailable" line)
  ∨ client_DialWithContext (Fixtures.world_with None ["a@x.com"])
      (the_client Fixtures.three_recipients) = Some "550 mailbox unavailable"
  ∨ from_check (Fixtures.world_with None ["a@x.com"]) Fixtures.three_recipients
    = Some "550 mailbox unavailable"
  ∨ ∃ r, r ∈ resolved_recipients (Fixtures.world_with None ["a@x.com"])
               Fixtures.three_recipients
         ∧ (msg_To (Fixtures.world_with None ["a@x.com"]) r
              = Some "550 mailbox unavailable"
            ∨ ∃ msg, hdr_To msg = [r]
                     ∧ client_Send (Fixtures.world_with None ["a@x.com"])
                         (the_client Fixtures.three_recipients) msg
                       = Some "550 mailbox unavailable").
Proof.
  apply X10_error_provenance. by_evaluation.
Defined.

(** ** Order of the events *)

Lemma loop_run_no_info (msgf : string → Msg) (rs : list string)
    (t : list Event) (res : result unit) :
  loop_run msgf rs t res → ∀ ev, ev ∈ t → is_info ev = false.
Proof. induction 1; intros ev Hev; set_solver. Qed.

(** X11. Every send happens on the dialed connection: in the run, the
    one successful dial comes before it and the one close after it, and
    is the last event. *)
Theorem X11_sends_between_dial_and_close (w : World) (p : Plugin) (msg : Msg)
    (res : option error) :
  EvSend msg res ∈ (Exec w p).1 →
  ∃ t1 t2 t3,
    (Exec w p).1 = t1 ++ EvDial None :: t2 ++ EvSend msg res :: t3 ++ [EvClose]
    ∧ ∀ ev, ev ∈ t1 ++ t2 ++ t3 → is_dial ev = false ∧ is_close ev = false.
Proof.
  intros Hev.
  destruct (Exec_steps_hold w p)
    as [e Hc|e line Hc Hf|h pl s e Hc Hr Hd|h pl s t r Hc Hr Hd Hloop].
  1-3: exfalso; apply elem_of_app in Hev as [Hev|Hev];
       [by apply resolution_trace_logs in Hev|set_solver].
  apply elem_of_app in Hev as [Hev|Hev]; [by apply resolution_trace_logs in Hev|].
  apply elem_of_app in Hev as [Hev|Hev]; [set_solver|].
  apply elem_of_app in Hev as [Hev|Hev]; [|set_solver].
  apply loop_steps_run in Hloop.
  pose proof (loop_run_events _ _ _ _ Hloop) as Hkinds.
  apply list_elem_of_split in Hev as (t2 & t3 & ->).
  exists (resolution_trace w p
            ++ [EvNewClient (Host (P_Config p)) (build_options p) None]), t2, t3.
  split; [by rewrite <- !app_assoc|].
  intros ev. rewrite !elem_of_app. intros [[H|H]|[H|H]].
  - apply resolution_trace_quiet in H. tauto.
  - apply elem_of_cons in H as [->|H]; [done|by apply elem_of_nil in H].
  - destruct (Hkinds ev); [set_solver| |]; by destruct ev.
  - destruct (Hkinds ev); [set_solver| |]; by destruct ev.
Qed.

Lemma X11_sends_between_dial_and_close_witness :
  ∃ t1 t2 t3,
    (Exec (Fixtures.world_with None []) Fixtures.three_recipients).1
    = t1 ++ EvDial None :: t2
         ++ EvSend (Fixtures.message_to "a@x.com" []) None :: t3 ++ [EvClose]
    ∧ ∀ ev, ev ∈ t1 ++ t2 ++ t3 → is_dial ev = false ∧ is_close ev = false.
Proof.
  apply X11_sends_between_dial_and_close. by_evaluation.
Defined.

(** X12. Every run, however it ends, logs the resolved recipient set
    once, at info level, right before it creates the mail client, and
    logs nothing else at that level. *)
Theorem X12_recipients_logged_once (w : World) (p : Plugin) :
  filter (λ ev, is_info ev = true) (Exec w p).1
    = [EvLog LvlInfo (RecipientsAre (resolved_recipients w p))]
  ∧ ∃ t1 t2,
      (Exec w p).1
      = t1 ++ EvLog LvlInfo (RecipientsAre (resolved_recipients w p))
           :: EvNewClient (Host (P_Config p)) (build_options p)
                (mail_NewClient w (Host (P_Config p)) (build_options p))
           :: t2.
Proof.
  assert (filter (λ ev, is_info ev = true) (resolution_trace w p)
          = [EvLog LvlInfo (RecipientsAre (resolved_recipients w p))]) as Hpre.
  { unfold resolution_trace. rewrite filter_app, filter_none; [done|].
    unfold resolution_log, file_log. intros ev. rewrite !elem_of_app.
    intros [H|[H|H]].
    - by apply elem_of_replicate in H as [-> _].
    - destruct (negb _); [|set_solver]. destruct (decide _); set_solver.
    - destruct (decide _); [set_solver|].
      destruct (os_Open w _); [|set_solver].
      by apply elem_of_replicate in H as [-> _]. }
  assert (∀ t, (∀ ev, ev ∈ t → is_info ev = false) →
               filter (λ ev, is_info ev = true) t = []) as Hnone.
  { intros t Ht. apply filter_none. intros ev Hev. rewrite (Ht ev Hev). discriminate. }
  destruct (Exec_steps_hold w p)
    as [e Hc|e line Hc Hf|h pl s e Hc Hr Hd|h pl s t r Hc Hr Hd Hloop];
    rewrite Hc, filter_app, Hpre; unfold resolution_trace; (split; [|
      eexists (resolution_log w p), _; rewrite <- app_assoc; simpl; reflexivity]).
  - rewrite Hnone; [done|]. set_solver.
  - rewrite Hnone; [done|]. destruct Hf; set_solver.
  - rewrite Hnone; [done|]. set_solver.
  - rewrite Hnone; [done|]. intros ev. rewrite !elem_of_app.
    intros [H|[H|H]]; [set_solver| |set_solver].
    apply loop_steps_run in Hloop. by apply (loop_run_no_info _ _ _ _ Hloop).
Qed.

(** ** When a run succeeds *)

(** X13. [Exec] returns nil whenever none of its calls fails: the client
    is created, the four rendering steps succeed, the dial succeeds, the
    From address passes its check, and for every resolved recipient the
    address passes its check and the send of a message to it succeeds.
    Neither the recipients file nor the attachments can make it fail. *)
Theorem X13_nil_when_no_call_fails (w : World) (p : Plugin) :
  mail_NewClient w (Host (P_Config p)) (build_options p) = None →
  (∀ err line, ¬ render_failure w p err line) →
  client_DialWithContext w (the_client p) = None →
  from_check w p = None →
  (∀ r, r ∈ resolved_recipients w p →
        msg_To w r = None
        ∧ ∀ msg, hdr_To msg = [r] → client_Send w (the_client p) msg = None) →
  (Exec w p).2 = None
  ∧ delivered (Exec w p).1 = iteration_order w p.
Proof.
  intros HC HR HD HF HS.
  assert ((Exec w p).2 = None) as Hnil.
  { destruct (Exec_steps_hold w p)
      as [e Hc|e line Hc Hf|h pl s e Hc Hr Hd|h pl s t res Hc Hr Hd Hloop];
      try congruence.
    - by destruct (HR e line).
    - destruct res as [[]|e]; [done|]. exfalso.
      destruct (loop_steps_error _ _ _ _ _ _ _ _ _ Hloop) as [Hfrom|(r & Hin & Hr')];
        [congruence|].
      apply elem_of_iteration_order in Hin. destruct (HS r Hin) as [Hto Hsend].
      destruct Hr' as [?|Hbad]; [congruence|].
      rewrite Hsend in Hbad; [discriminate|apply message_for_To]. }
  split; [done|]. by destruct (Exec_nil_delivered w p Hnil).
Qed.

Lemma X13_nil_when_no_call_fails_witness :
  (Exec (Fixtures.world_with None []) Fixtures.one_file_of_three).2 = None
  ∧ delivered (Exec (Fixtures.world_with None []) Fixtures.one_file_of_three).1
    = iteration_order (Fixtures.world_with None []) Fixtures.one_file_of_three.
Proof.
  apply X13_nil_when_no_call_fails.
  - by_evaluation.
  - intros err line Hf.
    destruct Hf as [e H1|rb e H1 H2|rb h e H1 H2 H3|rb h pl e H1 H2 H3 H4];
      first [ vm_compute in H1; discriminate H1
            | vm_compute in H2; discriminate H2
            | vm_compute in H3; discriminate H3
            | vm_compute in H4; discriminate H4 ].
  - by_evaluation.
  - by_evaluation.
  - intros r _. split; [reflexivity|]. intros msg Hto.
    unfold Fixtures.world_with, Fixtures.world_full, client_Send.
    rewrite Hto. reflexivity.
Defined.

(** X14. When [RecipientsOnly] is false and the commit author has an
    email, a run that returns nil has sent a message to the author. *)
Theorem X14_author_is_notified (w : World) (p : Plugin) :
  RecipientsOnly (P_Config p) = false →
  Author_Email (Commit_Author (P_Commit p)) ≠ "" →
  (Exec w p).2 = None →
  Author_Email (Commit_Author (P_Commit p)) ∈ delivered (Exec w p).1.
Proof.
  intros Honly Hemail Hnil.
  destruct (Exec_nil_delivered w p Hnil) as (-> & _).
  apply elem_of_iteration_order. rewrite resolved_recipients_eq.
  unfold author_source. rewrite Honly, decide_False by done. set_solver.
Qed.

Lemma X14_author_is_notified_witness :
  "ann@x.com" ∈ delivered (Exec (Fixtures.world_with None []) Cases.with_author).1.
Proof.
  apply (X14_author_is_notified (Fixtures.world_with None []) Cases.with_author).
  - reflexivity.
  - discriminate.
  - by_evaluation.
Defined.

(** X15. When [RecipientsOnly] is true, the commit author is handed to
    [client.Send] only as an entry of [Config.Recipients] or as a line
    of the recipients file: being the author gives no mail. *)
Theorem X15_recipients_only_excludes_author (w : World) (p : Plugin) :
  RecipientsOnly (P_Config p) = true →
  Author_Email (Commit_Author (P_Commit p)) ∈ attempted (Exec w p).1 →
  Author_Email (Commit_Author (P_Commit p)) ∈ Recipients (P_Config p)
  ∨ (RecipientsFile (P_Config p) ≠ ""
     ∧ ∃ f, os_Open w (RecipientsFile (P_Config p)) = Ok f
            ∧ Author_Email (Commit_Author (P_Commit p)) ∈ ScanLines f).
Proof.
  intros Honly Hin.
  assert (Author_Email (Commit_Author (P_Commit p)) ∈ resolved_recipients w p) as Hres.
  { apply elem_of_iteration_order.
    assert (attempted (Exec w p).1 `prefix_of` iteration_order w p) as [k ->].
    { destruct (Exec_steps_hold w p)
        as [e Hc|e line Hc Hf|h pl s e Hc Hr Hd|h pl s t res Hc Hr Hd Hloop];
        rewrite !attempted_app, attempted_resolution_trace; simpl;
        rewrite ?app_nil_r; try apply prefix_nil.
      apply (loop_steps_order _ _ _ _ _ _ _ _ _ Hloop). }
    apply elem_of_app. by left. }
  rewrite resolved_recipients_eq in Hres.
  unfold config_source, author_source, file_source in Hres.
  rewrite Honly in Hres.
  apply elem_of_union in Hres as [Hres|Hres].
  - apply elem_of_union in Hres as [Hres|Hres]; [|set_solver].
    left. by apply elem_of_nonempty_entries in Hres as [? _].
  - right. destruct (decide (RecipientsFile (P_Config p) = "")); [set_solver|].
    split; [done|].
    destruct (os_Open w (RecipientsFile (P_Config p))) as [f|e]; [|set_solver].
    exists f. split; [done|]. by apply elem_of_nonempty_entries in Hres as [? _].
Qed.

Lemma X15_recipients_only_excludes_author_witness :
  "a@x.com" ∈ Recipients (P_Config
      (Fixtures.plugin_with "a@x.com" (Fixtures.config_with ["a@x.com"] "" true "" [])))
  ∨ (RecipientsFile (P_Config
       (Fixtures.plugin_with "a@x.com" (Fixtures.config_with ["a@x.com"] "" true "" [])))
       ≠ ""
     ∧ ∃ f, os_Open (Fixtures.world_with None [])
              (RecipientsFile (P_Config
                 (Fixtures.plugin_with "a@x.com"
                    (Fixtures.config_with ["a@x.com"] "" true "" [])))) = Ok f
            ∧ "a@x.com" ∈ ScanLines f).
Proof.
  apply (X15_recipients_only_excludes_author (Fixtures.world_with None [])
           (Fixtures.plugin_with "a@x.com"
              (Fixtures.config_with ["a@x.com"] "" true "" []))).
  - reflexivity.
  - by_evaluation.
Defined.

(** With [RecipientsOnly] the author, who is in no list, gets no mail. *)
Example recipients_only_author_not_sent_to :
  attempted (Exec (Fixtures.world_with None []) Fixtures.three_recipients).1
  = ["c@x.com"; "a@x.com"; "b@x.com"].
Proof. by_evaluation. Qed.

(** ** What a run does not depend on *)



(** X17. The templates are rendered against the context of lines
    201-224, which holds the plugin without its configuration: what is
    rendered depends on the configuration through the body and subject
    templates only, and on none of its other fields (the password, the
    recipients, ...). *)
Theorem X17_templates_do_not_see_the_configuration (w : World) (p : Plugin)
    (cfg cfg' : Config) :
  Body cfg = Body cfg' →
  Subject cfg = Subject cfg' →
  render w (with_Config cfg p) = render w (with_Config cfg' p)
  ∧ ∀ msg res msg' res',
      EvSend msg res ∈ (Exec w (with_Config cfg p)).1 →
      EvSend msg' res' ∈ (Exec w (with_Config cfg' p)).1 →
      hdr_Subject msg = hdr_Subject msg' ∧ body_parts msg = body_parts msg'.
Proof.
  intros Hbody Hsubject.
  assert (render w (with_Config cfg p) = render w (with_Config cfg' p)) as Hrender.
  { unfold render.
    change (ctx (with_Config cfg p)) with (ctx p).
    change (ctx (with_Config cfg' p)) with (ctx p).
    change (P_Config (with_Config cfg p)) with cfg.
    change (P_Config (with_Config cfg' p)) with cfg'.
    by rewrite Hbody, Hsubject. }
  split; [done|].
  assert (∀ q msg res, EvSend msg res ∈ (Exec w q).1 →
            ∃ h pl s, render w q = ([], Ok (h, pl, s))
                      ∧ hdr_Subject msg = s
                      ∧ body_parts msg = [(TypeTextPlain, pl); (TypeTextHTML, h)])
    as Hsent.
  { intros q msg res Hev.
    destruct (Exec_steps_hold w q)
      as [e Hc|e line Hc Hf|h pl s e Hc Hr Hd|h pl s t r Hc Hr Hd Hloop].
    1-3: exfalso; apply elem_of_app in Hev as [Hev|Hev];
         [by apply resolution_trace_logs in Hev|set_solver].
    apply elem_of_app in Hev as [Hev|Hev]; [by apply resolution_trace_logs in Hev|].
    apply elem_of_app in Hev as [Hev|Hev]; [set_solver|].
    apply elem_of_app in Hev as [Hev|Hev]; [|set_solver].
    destruct (loop_steps_send _ _ _ _ _ _ _ _ _ _ _ Hloop Hev) as (_ & r0 & _ & -> & _).
    destruct (message_for_fields w q h pl s r0) as (_ & Hs & Hb).
    by exists h, pl, s. }
  intros msg res msg' res' Hev Hev'.
  destruct (Hsent _ _ _ Hev) as (h & pl & s & Hr & -> & ->).
  destruct (Hsent _ _ _ Hev') as (h' & pl' & s' & Hr' & -> & ->).
  rewrite Hrender, Hr' in Hr. by injection Hr as -> -> ->.
Qed.

Lemma X17_templates_do_not_see_the_configuration_witness :
  render (Fixtures.world_with None [])
    (with_Config (Fixtures.config_with ["a@x.com"] "" true "" []) Fixtures.no_recipient)
  = render (Fixtures.world_with None [])
      (with_Config (Fixtures.config_with ["b@x.com"] "rcpts.txt" false "report.txt" [])
         Fixtures.no_recipient).
Proof.
  refine (proj1 (X17_templates_do_not_see_the_configuration _ _ _ _ _ _));
    reflexivity.
Defined.

(** ** The dial *)

(** X18. [Exec] dials at most once, and whether it dials does not depend
    on the recipients: the one dial is made exactly when the client was
    created and the four rendering steps succeeded. *)
Theorem X18_dial_once (w : World) (p : Plugin) :
  filter (λ ev, is_dial ev = true) (Exec w p).1
  = match mail_NewClient w (Host (P_Config p)) (build_options p), (render w p).2 with
    | None, Ok _ => [EvDial (client_DialWithContext w (the_client p))]
    | _, _ => []
    end.
Proof.
  assert (∀ t, (∀ ev, ev ∈ t → is_dial ev = false) →
               filter (λ ev, is_dial ev = true) t = []) as Hnone.
  { intros t Ht. apply filter_none. intros ev Hev. rewrite (Ht ev Hev). discriminate. }
  assert (filter (λ ev, is_dial ev = true) (resolution_trace w p) = []) as Hpre.
  { apply Hnone. intros ev Hev. by apply resolution_trace_quiet in Hev as (? & _). }
  destruct (Exec_steps_hold w p)
    as [e Hc|e line Hc Hf|h pl s e Hc Hr Hd|h pl s t res Hc Hr Hd Hloop];
    rewrite Hc, filter_app, Hpre.
  - done.
  - by rewrite (render_failure_run _ _ _ _ Hf).
  - by rewrite Hr, Hd.
  - rewrite Hr, Hd. simpl.
    rewrite filter_cons, decide_False by discriminate.
    rewrite filter_cons, decide_True by done. f_equal.
    rewrite filter_app, (Hnone t); [done|].
    apply loop_steps_run in Hloop. intros ev Hev.
    destruct (loop_run_events _ _ _ _ Hloop ev Hev); by destruct ev.
Qed.
